(** * Persona scoring, product recommendation and post-style insights

    A shallow embedding of [assign_scores.py] and [insights.py].

    Modelling conventions.
    - A Python [str] is the list of its Unicode code points ([pystr]), so
      that [len], [split], [strip] and [count] see what Python sees.
    - A Python [float] is a rational ([Q]): no NaN, no infinities.  Equality
      of numbers is [Qeq] ([==]).
    - The sentence encoder ([model.encode]), sklearn's cosine, the
      zero-shot pipeline and [emoji.is_emoji] are library code: they are
      parameters of the functions that call them.
    - The functions come twice.  First with exact arithmetic, one fixed
      [np.argsort] and total library calls, where only indexing a list out
      of range can raise ([result]): an idealisation, used for what does
      not depend on rounding, on the order of equal similarities or on the
      library's own errors.  Then, in module [Py], with Python's and NumPy's
      rounding, the float operations and [np.argsort] as parameters and with
      the [ValueError] of sklearn and of the zero-shot pipeline.
    - A persona, a product-catalog entry and the output rows are records;
      the dictionaries the code builds or receives ([zero_shot_scores], the
      product catalog, the insights map) are [gmap]s. *)

From Stdlib Require Import QArith Qround Lqa.
From stdpp Require Import base list gmap strings sorting.

Open Scope Q_scope.

(** ** Python values *)

Abbreviation pystr := (list N).

(** An ASCII literal as a Python string. *)
Fixpoint py (s : string) : pystr :=
  match s with
  | EmptyString => []
  | String a rest => Ascii.N_of_ascii a :: py rest
  end.

Inductive exn := IndexError.

Inductive result (A : Type) :=
  | Ok (a : A)
  | Raise (e : exn).
Arguments Ok {A} a.
Arguments Raise {A} e.

Definition bind {A B} (r : result A) (k : A -> result B) : result B :=
  match r with
  | Ok a => k a
  | Raise e => Raise e
  end.

#[global] Instance result_bind : MBind result := fun A B k r => bind r k.
#[global] Instance result_ret : MRet result := @Ok.

(** [l[i]] for a non-negative index. *)
Definition index {A} (l : list A) (i : nat) : result A :=
  match l !! i with
  | Some a => Ok a
  | None => Raise IndexError
  end.

(** [[f(x) for x in l]] where [f] may raise: left to right, first error wins. *)
Fixpoint for_each {A B} (f : A -> result B) (l : list A) : result (list B) :=
  match l with
  | [] => Ok []
  | x :: xs => y ← f x; ys ← for_each f xs; Ok (y :: ys)
  end.

(** [l[:k]]: a negative [k] counts from the end. *)
Definition slice_to {A} (l : list A) (k : Z) : list A :=
  if (0 <=? k)%Z then take (Z.to_nat k) l
  else take (length l - Z.to_nat (- k)) l.

(** ** Numbers *)

Definition Qltb (a b : Q) : bool := negb (Qle_bool b a).

#[global] Instance Q_inhabited : Inhabited Q := populate 0.
#[global] Instance Qeq_decision (a b : Q) : Decision (a == b) := Qeq_dec a b.

(** Nearest integer, ties to the even one. *)
Definition round_half_even (y : Q) : Z :=
  let f := Qfloor y in
  match Qcompare (y - inject_Z f) (1 # 2) with
  | Lt => f
  | Gt => (f + 1)%Z
  | Eq => if Z.even f then f else (f + 1)%Z
  end.

(** [round(x, ndigits)] on the exact value: the nearest multiple of
    [10^-ndigits], ties to the even one.  Python and NumPy round the double,
    and differ from this and from each other where the decimal is a tie or
    next to one; [Py] below keeps the two apart as library functions. *)
Definition round (x : Q) (ndigits : nat) : Q :=
  let s := inject_Z (10 ^ Z.of_nat ndigits) in
  inject_Z (round_half_even (x * s)) / s.

(** ** Sorting *)

Section Sorting.
Context {A : Type} (key : A -> Q).

(** Insertion below the first element that is not smaller: equal keys keep
    their order. *)
Fixpoint insert_by (x : A) (l : list A) : list A :=
  match l with
  | [] => [x]
  | y :: ys => if Qltb (key y) (key x) then y :: insert_by x ys
               else x :: y :: ys
  end.

(** A stable ascending sort. *)
Definition sort_asc (l : list A) : list A := foldr insert_by [] l.

(** [sorted(l, key=key, reverse=reverse)]: with [reverse] the list is
    reversed, sorted ascending and reversed again, which keeps the sort
    stable. *)
Definition sorted (l : list A) (reverse : bool) : list A :=
  if reverse then list.reverse (sort_asc (list.reverse l))
  else sort_asc l.

(** The elements whose key is [k]: those a stable sort must not reorder. *)
Definition same_key (k : Q) (a : A) : Prop := key a == k.

#[global] Instance same_key_dec k a : Decision (same_key k a) :=
  Qeq_decision (key a) k.

(** Ordered by key and, among equal keys, by [before]. *)
Definition key_then (before : relation A) : relation A :=
  λ a b, key a < key b ∨ (key a == key b ∧ before a b).
End Sorting.

(** [np.argsort(a)]: the indices of [a] in ascending order of value.  NumPy
    promises no order among equal values for the default kind, and its
    builds differ there.  This is one of the orders it may give, the one
    that keeps equal values in index order; what is proved with it and
    depends on that order is not a property of the code.  [Py] below leaves
    the order among equal values open. *)
Definition argsort (a : list Q) : list nat :=
  sort_asc (λ i, a !!! i) (seq 0 (length a)).

(** [np.argsort(sims)[::-1][:top_k]] *)
Definition shortlist (sims : list Q) (top_k : Z) : list nat :=
  slice_to (reverse (argsort sims)) top_k.

(** ** Strings *)

(** The characters [str.split] and [str.strip] treat as whitespace. *)
Definition is_space (c : N) : bool :=
  ((9 <=? c) && (c <=? 13) || (28 <=? c) && (c <=? 32) || (c =? 133)
   || (c =? 160) || (c =? 5760) || (8192 <=? c) && (c <=? 8202)
   || (c =? 8232) || (c =? 8233) || (c =? 8239) || (c =? 8287)
   || (c =? 12288))%N.

Fixpoint lstrip (s : pystr) : pystr :=
  match s with
  | [] => []
  | c :: rest => if is_space c then lstrip rest else s
  end.

(** [s.strip()] *)
Definition strip (s : pystr) : pystr := reverse (lstrip (reverse (lstrip s))).

(** [sep.join(l)] *)
Fixpoint join (sep : pystr) (l : list pystr) : pystr :=
  match l with
  | [] => []
  | [s] => s
  | s :: rest => s ++ sep ++ join sep rest
  end.

(** [s.split()]: [word] is the token being read. *)
Fixpoint split_acc (word s : pystr) : list pystr :=
  match s with
  | [] => if word is [] then [] else [word]
  | c :: rest =>
      if is_space c
      then (if word is [] then split_acc [] rest else word :: split_acc [] rest)
      else split_acc (word ++ [c]) rest
  end.

Definition split (s : pystr) : list pystr := split_acc [] s.

(** [s.count(c)] for a one-character [c]. *)
Definition count (s : pystr) (c : N) : nat := length (filter (λ x, x = c) s).

(** [dict(pairs)]: a later pair overrides an earlier one with the same key. *)
Definition dict `{Countable K} {V} (pairs : list (K * V)) : gmap K V :=
  foldl (λ m kv, <[kv.1 := kv.2]> m) ∅ pairs.

(** [d.get(k, dflt)] *)
Definition get `{Countable K} {V} (d : gmap K V) (k : K) (dflt : V) : V :=
  default dflt (d !! k).

(** The number of whitespace-delimited tokens of [s], counted at the
    character that starts each one. *)
Fixpoint tokens_from (after_space : bool) (s : pystr) : nat :=
  match s with
  | [] => 0
  | c :: rest =>
      if is_space c then tokens_from true rest
      else ((if after_space then 1 else 0) + tokens_from false rest)%nat
  end.

Definition whitespace_tokens (s : pystr) : nat := tokens_from true s.

(** ** Data model *)

Abbreviation vec := (list Q).

(** [Union[str, List[str]]] *)
Inductive texts_arg :=
  | Text (s : pystr)
  | Texts (l : list pystr).

(** A sentence encoder: [model.encode] on one text. *)
Abbreviation SentenceTransformer := (pystr → vec).

Record Persona := {
  label : pystr;
  description : pystr;
  emoji : pystr;
  traits : list pystr;
  synonyms : list pystr
}.

(** What the zero-shot pipeline answers: parallel [labels] and [scores]. *)
Record ZeroShotOutput := {
  zs_labels : list pystr;
  zs_scores : list Q
}.

Abbreviation Pipeline := (pystr → list pystr → ZeroShotOutput).

Record ScoreResult := {
  score_label : pystr;
  embed_score : Q;
  zero_shot_score : Q;
  combined_score : Q
}.

Record Product := {
  product : pystr;
  category : pystr
}.

Record Recommendation := {
  rec_product : pystr;
  rec_category : pystr;
  score : Q
}.

(** ** models.py *)

Definition TOP_K : Z := 5.
Definition ALPHA_DEFAULT : Q := 3 # 10.
Definition BETA_DEFAULT : Q := 7 # 10.

(** ** assign_scores.py *)

(** [model.encode(texts, normalize_embeddings=True)]: one row per text, in
    the order of the texts. *)
Definition model_encode (model : SentenceTransformer) (texts : list pystr)
  : list vec := map model texts.

Definition encode_text (texts : texts_arg) (model : SentenceTransformer)
  : list vec :=
  let texts := match texts with Text s => [s] | Texts l => l end in
  model_encode model texts.

(** [rows.mean(axis=0)]: the element-wise sum of the rows over their number. *)
Definition mean_axis0 (rows : list vec) : vec :=
  match rows with
  | [] => []
  | r :: rs =>
      map (λ s, s / inject_Z (Z.of_nat (length rows)))
          (foldl (zip_with Qplus) r rs)
  end.

Definition weight_bio_default : Q := 2.

Definition embed_user_input (bio : pystr) (posts : list pystr)
    (model : SentenceTransformer) (weight_bio : Q) : vec :=
  let texts := strip bio :: posts in
  let weights := weight_bio :: replicate (length posts) 1 in
  let vectors := encode_text (Texts texts) model in
  let weighted := zip_with (λ w v, map (Qmult w) v) weights vectors in
  mean_axis0 weighted.

Definition embed_personalities (personas : list Persona)
    (model : SentenceTransformer) : list vec :=
  encode_text (Texts (map description personas)) model.

(** One output row of [compute_scores], from the raw similarity [sim] of the
    persona called [label]. *)
Definition score_entry (alpha beta : Q) (zero_shot_scores : gmap pystr Q)
    (sim : Q) (label : pystr) : ScoreResult :=
  {| score_label := label;
     embed_score := round sim 3;
     zero_shot_score := round (get zero_shot_scores label 0) 3;
     combined_score :=
       round (alpha * sim + beta * get zero_shot_scores label 0) 3 |}.

Section AssignScores.
(** The cosine of two vectors, as sklearn computes it. *)
Variable cosine : vec → vec → Q.

(** [cosine_similarity(X, Y)]: row [i], column [j] compares [X[i]] with
    [Y[j]]. *)
Definition cosine_similarity (X Y : list vec) : list (list Q) :=
  map (λ x, map (cosine x) Y) X.

Definition compute_scores (bio : pystr) (posts : list pystr)
    (personalities : list Persona) (personalities_vectors : list vec)
    (embedding_model : SentenceTransformer) (zero_shot : Pipeline)
    (alpha beta : Q) (top_k : Z) (weight_bio : Q)
  : result (list ScoreResult) :=
  let user_vector := embed_user_input bio posts embedding_model weight_bio in
  sims ← index (cosine_similarity [user_vector] personalities_vectors) 0;
  let top_idxs := shortlist sims top_k in
  labels ← for_each (λ i, p ← index personalities i; Ok (label p)) top_idxs;
  let zs := zero_shot (bio ++ py " " ++ join (py " ") posts) labels in
  let zero_shot_scores := dict (zip (zs_labels zs) (zs_scores zs)) in
  rows ← for_each
    (λ '(i, label),
       sim ← index sims i;
       Ok (score_entry alpha beta zero_shot_scores sim label))
    (zip top_idxs labels);
  Ok (sorted zero_shot_score rows true).

(** The [sims] of [compute_scores]: one similarity per persona vector. *)
Definition similarities (bio : pystr) (posts : list pystr)
    (personalities_vectors : list vec)
    (embedding_model : SentenceTransformer) (weight_bio : Q) : list Q :=
  map (cosine (embed_user_input bio posts embedding_model weight_bio))
      personalities_vectors.

(** The text [compute_scores] hands to the classifier. *)
Definition classifier_text (bio : pystr) (posts : list pystr) : pystr :=
  bio ++ py " " ++ join (py " ") posts.

(** The rows of [compute_scores] before the final sort, along the
    shortlist, for the shortlisted [labels]. *)
Definition score_rows (bio : pystr) (posts : list pystr)
    (personalities_vectors : list vec)
    (embedding_model : SentenceTransformer) (zero_shot : Pipeline)
    (alpha beta : Q) (top_k : Z) (weight_bio : Q) (labels : list pystr)
  : list ScoreResult :=
  let sims :=
    similarities bio posts personalities_vectors embedding_model
      weight_bio in
  let zs := zero_shot (classifier_text bio posts) labels in
  zip_with
    (λ i label,
       score_entry alpha beta (dict (zip (zs_labels zs) (zs_scores zs)))
         (sims !!! i) label)
    (shortlist sims top_k) labels.

(** The [products] of [recommend_products]: the catalog entries of the
    given personas, persona by persona, duplicates kept. *)
Definition candidate_products (top_personas : list pystr)
    (product_catalog : gmap pystr (list Product)) : list Product :=
  concat (map (λ persona, get product_catalog persona []) top_personas).

(** The recommendation for one candidate, scored against the text of the
    posts: what [recommend_products] pairs up before sorting. *)
Definition recommendation_for (posts : list pystr)
    (model : SentenceTransformer) (p : Product) : Recommendation :=
  {| rec_product := product p;
     rec_category := category p;
     score :=
       round (cosine (model (join (py " ") posts))
                (model (product p ++ py " - " ++ category p))) 3 |}.

Definition recommend_products (posts : list pystr)
    (top_personas : list pystr) (product_catalog : gmap pystr (list Product))
    (model : SentenceTransformer) (top_k : Z)
  : result (list Recommendation) :=
  user_vector ← index (encode_text (Text (join (py " ") posts)) model) 0;
  let products := candidate_products top_personas product_catalog in
  if products is [] then Ok []
  else
    let product_texts :=
      map (λ p, product p ++ py " - " ++ category p) products in
    let product_vecs := encode_text (Texts product_texts) model in
    scores ← index (cosine_similarity [user_vector] product_vecs) 0;
    Ok (slice_to
          (sorted score
             (zip_with (λ p s, {| rec_product := product p;
                                  rec_category := category p;
                                  score := round s 3 |})
                       products scores)
             true)
          top_k).
End AssignScores.

(** ** insights.py *)

Section Insights.
(** [emoji.is_emoji]: is this string one emoji? *)
Variable is_emoji : pystr → bool.

(** A post with at least one emoji character. *)
Definition has_emoji (p : pystr) : Prop := Exists (λ c, is_emoji [c]) p.

#[global] Instance has_emoji_dec p : Decision (has_emoji p).
Proof. unfold has_emoji. apply _. Defined.

Definition sum (l : list nat) : nat := foldr Nat.add 0%nat l.

(** [a / b] on Python integers, as the exact quotient (Python gives the
    nearest double; [Py] below has the division as a library function). *)
Definition true_div (a b : nat) : Q :=
  inject_Z (Z.of_nat a) / inject_Z (Z.of_nat b).

Definition post_style_insights (posts : list pystr) : gmap string Q :=
  if posts is [] then ∅
  else
    let total_chars := sum (map length posts) in
    let total_words := sum (map (λ p, length (split p)) posts) in
    let emojis :=
      concat (map (λ p, filter (λ char, is_emoji [char]) p) posts) in
    let posts_with_emoji :=
      sum (map (λ _, 1%nat)
               (filter (λ p, existsb (λ c, is_emoji [c]) p) posts)) in
    let exclamations := sum (map (λ p, count p 33%N) posts) in
    let num := length posts in
    <["avg_post_length_chars" := round (true_div total_chars num) 1]>
    (<["avg_post_length_words" := round (true_div total_words num) 1]>
    (<["emoji_usage_percent" :=
         round (true_div (100 * posts_with_emoji) num) 1]>
    (<["avg_exclamations_per_post" :=
         round (true_div exclamations num) 2]> ∅))).
End Insights.

(** ** Concrete collaborators for the examples *)

Module Demo.
Definition dot (u v : vec) : Q := foldr Qplus 0 (zip_with Qmult u v).

(** The square root of a rational whose reduced numerator and denominator
    are perfect squares. *)
Definition sqrt_exact (q : Q) : Q :=
  let r := Qred q in Z.sqrt (Qnum r) # Pos.sqrt (Qden r).

Definition norm (v : vec) : Q :=
  let n := sqrt_exact (dot v v) in if Qeq_bool n 0 then 1 else n.

(** The cosine of two vectors of rational length (a zero vector counts as
    length one, as sklearn's normalisation has it). *)
Definition cosine (u v : vec) : Q := dot u v / (norm u * norm v).

(** An encoder given by a table; every other text goes to [(0, 1)]. *)
Definition model : SentenceTransformer :=
  λ s, get (dict [(py "outdoors", [1; 0]);
                  (py "mostly outdoors", [-7 # 25; 24 # 25]);
                  (py "food", [0; 1]);
                  (py "hiker", [3 # 5; 4 # 5]);
                  (py "Trail Mix - Snacks", [4 # 5; 3 # 5]);
                  (py "Boots - Gear", [3 # 5; 4 # 5])]) s [0; 1].

Definition personalities : list Persona :=
  [ {| label := py "Explorer"; description := py "outdoors";
       emoji := []; traits := []; synonyms := [] |};
    {| label := py "Wanderer"; description := py "mostly outdoors";
       emoji := []; traits := []; synonyms := [] |};
    {| label := py "Foodie"; description := py "food";
       emoji := []; traits := []; synonyms := [] |} ].

Definition distribution : list (pystr * Q) :=
  [(py "Explorer", 24 # 10000); (py "Wanderer", 0);
   (py "Foodie", 9976 # 10000)].

(** A classifier that answers for the candidates it is given, in their
    order, from a fixed distribution over the three labels. *)
Definition zero_shot : Pipeline :=
  λ _ candidate_labels,
    {| zs_labels := candidate_labels;
       zs_scores := map (λ l, get (dict distribution) l 0) candidate_labels |}.

Definition product_catalog : gmap pystr (list Product) :=
  dict [(py "Explorer",
         [ {| product := py "Trail Mix"; category := py "Snacks" |};
           {| product := py "Boots"; category := py "Gear" |} ]);
        (py "Recluse", [])].

(** A range test standing in for the emoji table. *)
Definition is_emoji (s : pystr) : bool :=
  match s with
  | [c] => ((0x1F300 <=? c) && (c <=? 0x1FAFF)
            || (0x2600 <=? c) && (c <=? 0x27BF))%N
  | _ => false
  end.

Definition posts : list pystr :=
  [ py "I love hiking! " ++ [0x1F3D4; 0xFE0F]%N; py "Best trail ever!!" ].

Definition personalities_vectors : list vec :=
  embed_personalities personalities model.

(** [compute_scores] as [app.py] calls it. *)
Definition run (bio : pystr) (posts : list pystr) (top_k : Z)
  : result (list ScoreResult) :=
  compute_scores cosine bio posts personalities personalities_vectors
    model zero_shot ALPHA_DEFAULT BETA_DEFAULT top_k weight_bio_default.
End Demo.

(** ** app.py *)

(** What the presentation layer can raise on its own: a missing key of the
    insights map, and [next] on an exhausted generator. *)
Inductive ui_exn :=
  | KeyError (key : string)
  | StopIteration
  | Scoring (e : exn).

Inductive ui_result (A : Type) :=
  | Done (a : A)
  | Failed (e : ui_exn).
Arguments Done {A} a.
Arguments Failed {A} e.

Definition ui_bind {A B} (r : ui_result A) (k : A -> ui_result B)
  : ui_result B :=
  match r with
  | Done a => k a
  | Failed e => Failed e
  end.

#[global] Instance ui_result_bind : MBind ui_result :=
  fun A B k r => ui_bind r k.

(** The characters at which [str.splitlines] ends a line. *)
Definition is_linebreak (c : N) : bool :=
  ((10 <=? c) && (c <=? 13) || (28 <=? c) && (c <=? 30) || (c =? 133)
   || (c =? 8232) || (c =? 8233))%N.

(** [s.splitlines()]: [line] is the line being read; a carriage return
    followed by a line feed ends one line, and no empty line is reported
    after the last line break. *)
Fixpoint splitlines_acc (line s : pystr) : list pystr :=
  match s with
  | [] => if line is [] then [] else [line]
  | c :: rest =>
      if is_linebreak c then
        line :: (if (c =? 13)%N
                 then match rest with
                      | c' :: rest' =>
                          if (c' =? 10)%N then splitlines_acc [] rest'
                          else splitlines_acc [] rest
                      | [] => splitlines_acc [] rest
                      end
                 else splitlines_acc [] rest)
      else splitlines_acc (line ++ [c]) rest
  end.

Definition splitlines (s : pystr) : list pystr := splitlines_acc [] s.

(** The [posts] of [sidebar_inputs]:
    [[p.strip() for p in posts_text.splitlines() if p.strip()]]. *)
Definition sidebar_posts (posts_text : pystr) : list pystr :=
  map strip (filter (λ p, strip p ≠ []) (splitlines posts_text)).

(** [insights[key]] *)
Definition subscript (insights : gmap string Q) (key : string)
  : ui_result Q :=
  match insights !! key with
  | Some v => Done v
  | None => Failed (KeyError key)
  end.

(** [display_post_style]: the four boxes it draws, each a caption with the
    value read from the insights map, in the order of the reads. *)
Definition display_post_style (insights : gmap string Q)
  : ui_result (list (string * Q)) :=
  words ← subscript insights "avg_post_length_words";
  chars ← subscript insights "avg_post_length_chars";
  emojis ← subscript insights "emoji_usage_percent";
  exclamations ← subscript insights "avg_exclamations_per_post";
  Done [("Avg words / post", words); ("Avg characters / post", chars);
        ("Posts with emojis", emojis); ("Exclamations / post", exclamations)].

(** [next(p for p in personalities if p["label"] == r["label"])] *)
Definition next_persona (personalities : list Persona) (r : ScoreResult)
  : ui_result Persona :=
  match list_find (λ p, label p = score_label r) personalities with
  | Some (_, p) => Done p
  | None => Failed StopIteration
  end.

(** [display_personas]: the persona whose card is drawn for each result. *)
Fixpoint display_personas (results : list ScoreResult)
    (personalities : list Persona) : ui_result (list Persona) :=
  match results with
  | [] => Done []
  | r :: rest =>
      persona ← next_persona personalities r;
      cards ← display_personas rest personalities;
      Done (persona :: cards)
  end.


Module DemoApp.
(** A classifier that answers for its first candidate only. *)
Definition zero_shot_first : Pipeline :=
  λ _ candidate_labels,
    {| zs_labels := take 1 candidate_labels;
       zs_scores := [1] |}.

Definition posts_text : pystr :=
  py "  Summit day!  " ++ [13; 10]%N ++ [10]%N ++ py "   " ++ [10]%N
    ++ py "Trail mix" ++ [10]%N.
End DemoApp.

(** ** The functions with their library calls as they are

    Above, a float operation is its exact rational counterpart and
    [np.argsort] is one particular sort.  In this module the library calls
    are parameters, so that what is proved holds whatever they compute:
    Python's [round], NumPy's [round] on a scalar, float multiplication,
    addition and division, [np.argsort] (whose default kind promises no
    order among equal values) and the cosine.  A number is still the
    rational value of a float, and NaN is left out.  The checks of sklearn
    and of the zero-shot pipeline that raise [ValueError] are part of the
    calls. *)

Module Py.
Inductive exn : Set :=
  | IndexError
  | ValueError.

Inductive outcome (A : Type) :=
  | Returned (a : A)
  | Raised (e : exn).
Arguments Returned {A} a.
Arguments Raised {A} e.

Definition bind {A B} (r : outcome A) (k : A -> outcome B) : outcome B :=
  match r with
  | Returned a => k a
  | Raised e => Raised e
  end.

#[global] Instance outcome_bind : MBind outcome := fun A B k r => bind r k.

Record Library := {
  (** [round(x, ndigits)] on a Python float *)
  fround : Q → nat → Q;
  (** [round(x, ndigits)] on a NumPy scalar *)
  np_round : Q → nat → Q;
  (** [x * y] and [x + y] on floats *)
  fmul : Q → Q → Q;
  fadd : Q → Q → Q;
  (** [a / b] on Python integers *)
  fdiv : nat → nat → Q;
  (** [np.argsort(a)] *)
  argsort : list Q → list nat;
  (** the cosine of two rows, as sklearn computes it *)
  cosine : vec → vec → Q
}.

(** What NumPy documents of [np.argsort]: the indices of the array, each
    once, in an order that sorts the values ascending. *)
Definition argsort_sorts (L : Library) : Prop :=
  ∀ a : list Q,
    argsort L a ≡ₚ seq 0 (length a) ∧
    StronglySorted (λ i j, a !!! i <= a !!! j) (argsort L a).

(** [l[i]] for a non-negative index. *)
Definition index {A} (l : list A) (i : nat) : outcome A :=
  match l !! i with
  | Some a => Returned a
  | None => Raised IndexError
  end.

(** [[f(x) for x in l]] where [f] may raise. *)
Fixpoint for_each {A B} (f : A -> outcome B) (l : list A)
  : outcome (list B) :=
  match l with
  | [] => Returned []
  | x :: xs => y ← f x; ys ← for_each f xs; Returned (y :: ys)
  end.

(** The arrays sklearn accepts: at least one row in [Y], and every row of
    [X] and [Y] of one length that is not zero. *)
Definition well_shaped (X Y : list vec) : bool :=
  match Y with
  | [] => false
  | y :: _ =>
      (0 <? length y)%nat
      && forallb (λ r, (length r =? length y)%nat) X
      && forallb (λ r, (length r =? length y)%nat) Y
  end.

(** [cosine_similarity(X, Y)]: [ValueError] on arrays it does not accept. *)
Definition cosine_similarity (L : Library) (X Y : list vec)
  : outcome (list (list Q)) :=
  if well_shaped X Y then Returned (map (λ x, map (cosine L x) Y) X)
  else Raised ValueError.

(** [zero_shot(text, candidate_labels=labels)]: the pipeline raises
    [ValueError] when it is given no label. *)
Definition classify (zero_shot : Pipeline) (text : pystr)
    (labels : list pystr) : outcome ZeroShotOutput :=
  if labels is [] then Raised ValueError
  else Returned (zero_shot text labels).

(** [np.argsort(sims)[::-1][:top_k]] *)
Definition shortlist (L : Library) (sims : list Q) (top_k : Z) : list nat :=
  slice_to (reverse (argsort L sims)) top_k.

(** One output row of [compute_scores]. *)
Definition score_entry (L : Library) (alpha beta : Q)
    (zero_shot_scores : gmap pystr Q) (sim : Q) (label : pystr)
  : ScoreResult :=
  {| score_label := label;
     embed_score := fround L sim 3;
     zero_shot_score := fround L (get zero_shot_scores label 0) 3;
     combined_score :=
       np_round L
         (fadd L (fmul L alpha sim)
            (fmul L beta (get zero_shot_scores label 0))) 3 |}.

Definition compute_scores (L : Library) (bio : pystr) (posts : list pystr)
    (personalities : list Persona) (personalities_vectors : list vec)
    (embedding_model : SentenceTransformer) (zero_shot : Pipeline)
    (alpha beta : Q) (top_k : Z) (weight_bio : Q)
  : outcome (list ScoreResult) :=
  let user_vector := embed_user_input bio posts embedding_model weight_bio in
  matrix ← cosine_similarity L [user_vector] personalities_vectors;
  sims ← index matrix 0;
  let top_idxs := shortlist L sims top_k in
  labels ← for_each (λ i, p ← index personalities i; Returned (label p))
             top_idxs;
  zs ← classify zero_shot (bio ++ py " " ++ join (py " ") posts) labels;
  let zero_shot_scores := dict (zip (zs_labels zs) (zs_scores zs)) in
  rows ← for_each
    (λ '(i, label),
       sim ← index sims i;
       Returned (score_entry L alpha beta zero_shot_scores sim label))
    (zip top_idxs labels);
  Returned (sorted zero_shot_score rows true).

(** The [sims] of [compute_scores]. *)
Definition similarities (L : Library) (bio : pystr) (posts : list pystr)
    (personalities_vectors : list vec)
    (embedding_model : SentenceTransformer) (weight_bio : Q) : list Q :=
  map (cosine L (embed_user_input bio posts embedding_model weight_bio))
      personalities_vectors.

Definition recommend_products (L : Library) (posts : list pystr)
    (top_personas : list pystr) (product_catalog : gmap pystr (list Product))
    (model : SentenceTransformer) (top_k : Z)
  : outcome (list Recommendation) :=
  user_vector ← index (encode_text (Text (join (py " ") posts)) model) 0;
  let products :=
    concat (map (λ persona, get product_catalog persona []) top_personas) in
  if products is [] then Returned []
  else
    let product_texts :=
      map (λ p, product p ++ py " - " ++ category p) products in
    let product_vecs := encode_text (Texts product_texts) model in
    matrix ← cosine_similarity L [user_vector] product_vecs;
    scores ← index matrix 0;
    Returned (slice_to
                (sorted score
                   (zip_with (λ p s, {| rec_product := product p;
                                        rec_category := category p;
                                        score := np_round L s 3 |})
                             products scores)
                   true)
                top_k).

Definition post_style_insights (L : Library) (is_emoji : pystr → bool)
    (posts : list pystr) : gmap string Q :=
  if posts is [] then ∅
  else
    let total_chars := sum (map length posts) in
    let total_words := sum (map (λ p, length (split p)) posts) in
    let emojis :=
      concat (map (λ p, filter (λ char, is_emoji [char]) p) posts) in
    let posts_with_emoji :=
      sum (map (λ _, 1%nat)
               (filter (λ p, existsb (λ c, is_emoji [c]) p) posts)) in
    let exclamations := sum (map (λ p, count p 33%N) posts) in
    let num := length posts in
    <["avg_post_length_chars" := fround L (fdiv L total_chars num) 1]>
    (<["avg_post_length_words" := fround L (fdiv L total_words num) 1]>
    (<["emoji_usage_percent" :=
         fround L (fdiv L (100 * posts_with_emoji) num) 1]>
    (<["avg_exclamations_per_post" :=
         fround L (fdiv L exclamations num) 2]> ∅))).
End Py.

(** The [zero_shot_scores] of [compute_scores] when the shortlisted labels
    are [labels]. *)
Definition zero_shot_scores_for (zero_shot : Pipeline) (bio : pystr)
    (posts : list pystr) (labels : list pystr) : gmap pystr Q :=
  let zs := zero_shot (bio ++ py " " ++ join (py " ") posts) labels in
  dict (zip (zs_labels zs) (zs_scores zs)).

(** A row of the result along the shortlist: the entry of index [i], from
    the raw similarity of [i]. *)
Definition row_of (L : Py.Library) (alpha beta : Q)
    (zero_shot_scores : gmap pystr Q) (personalities : list Persona)
    (sims : list Q) (i : nat) (r : ScoreResult) : Prop :=
  ∃ sim,
    label <$> personalities !! i = Some (score_label r) ∧
    sims !! i = Some sim ∧
    r = Py.score_entry L alpha beta zero_shot_scores sim (score_label r).

(** The library in which every float operation is exact and [np.argsort]
    keeps equal values in index order: the one the definitions outside
    [Py] use. *)
Definition exact_library : Py.Library :=
  {| Py.fround := round; Py.np_round := round;
     Py.fmul := Qmult; Py.fadd := Qplus; Py.fdiv := true_div;
     Py.argsort := argsort; Py.cosine := Demo.cosine |}.

(** The same with an [np.argsort] that puts equal values in descending
    index order. *)
Definition exact_library_ties_reversed : Py.Library :=
  {| Py.fround := round; Py.np_round := round;
     Py.fmul := Qmult; Py.fadd := Qplus; Py.fdiv := true_div;
     Py.argsort :=
       λ a, sort_asc (λ i, a !!! i) (reverse (seq 0 (length a)));
     Py.cosine := Demo.cosine |}.

Definition py_run (L : Py.Library) (bio : pystr) (posts : list pystr)
    (top_k : Z) : Py.outcome (list ScoreResult) :=
  Py.compute_scores L bio posts Demo.personalities Demo.personalities_vectors
    Demo.model Demo.zero_shot ALPHA_DEFAULT BETA_DEFAULT top_k
    weight_bio_default.

(** * Properties *)

(** ** Comparisons and rounding *)

Lemma Qltb_lt a b : Qltb a b = true ↔ a < b.
Proof.
  unfold Qltb. rewrite negb_true_iff, <- not_true_iff_false, Qle_bool_iff.
  split; [apply Qnot_le_lt | apply Qlt_not_le].
Qed.

Lemma Qltb_ge a b : Qltb a b = false ↔ b <= a.
Proof.
  unfold Qltb. rewrite negb_false_iff. apply Qle_bool_iff.
Qed.

(** Rounding to the nearest integer never leaves an interval with integer
    ends. *)
Lemma round_half_even_between (lo hi : Z) (y : Q) :
  inject_Z lo <= y → y <= inject_Z hi →
  (lo <= round_half_even y <= hi)%Z.
Proof.
  intros Hlo Hhi.
  assert (Hf1 : (lo <= Qfloor y)%Z).
  { rewrite <- (Qfloor_Z lo). by apply Qfloor_resp_le. }
  assert (Hf2 : (Qfloor y <= hi)%Z).
  { rewrite <- (Qfloor_Z hi). by apply Qfloor_resp_le. }
  unfold round_half_even.
  destruct (Qcompare_spec (y - inject_Z (Qfloor y)) (1 # 2)) as [He|Hl|Hg].
  - assert (Qfloor y ≠ hi).
    { intros Heq. rewrite Heq in He. lra. }
    destruct (Z.even _); lia.
  - lia.
  - assert (Qfloor y ≠ hi).
    { intros Heq. rewrite Heq in Hg. lra. }
    lia.
Qed.

Lemma round_unit_interval (x : Q) (ndigits : nat) :
  0 <= x <= 1 → 0 <= round x ndigits <= 1.
Proof.
  intros [H0 H1]. unfold round.
  set (s := (10 ^ Z.of_nat ndigits)%Z).
  assert (Hs : (0 < s)%Z) by (apply Z.pow_pos_nonneg; lia).
  assert (HsQ : inject_Z 0 < inject_Z s) by (by rewrite <- Zlt_Qlt).
  change (inject_Z 0) with 0 in HsQ.
  destruct (round_half_even_between 0 s (x * inject_Z s)) as [Ha Hb].
  - apply Qmult_le_0_compat; [done | by apply Qlt_le_weak].
  - apply Qle_trans with (1 * inject_Z s); [| rewrite Qmult_1_l; apply Qle_refl].
    apply Qmult_le_compat_r; [done | by apply Qlt_le_weak].
  - split.
    + apply Qle_shift_div_l; [done |]. rewrite Qmult_0_l.
      change 0 with (inject_Z 0). by rewrite <- Zle_Qle.
    + apply Qle_shift_div_r; [done |]. rewrite Qmult_1_l.
      by rewrite <- Zle_Qle.
Qed.

(** ** The stable sort *)

Lemma StronglySorted_reverse {A} (R : relation A) (l : list A) :
  StronglySorted R l → StronglySorted (flip R) (reverse l).
Proof.
  induction 1 as [|x l Hl IH Hx]; [constructor |].
  rewrite reverse_cons. apply StronglySorted_app; split_and!.
  - intros a b Ha Hb. apply list_elem_of_singleton in Hb as ->.
    rewrite Forall_forall in Hx. apply Hx. by apply elem_of_reverse.
  - done.
  - repeat constructor.
Qed.

Section SortingFacts.
Context {A : Type} (key : A → Q).

Lemma insert_by_perm x l : insert_by key x l ≡ₚ x :: l.
Proof.
  induction l as [|y ys IH]; simpl; [done |].
  destruct (Qltb _ _); [| done]. rewrite IH. apply Permutation_swap.
Qed.

Lemma sort_asc_perm l : sort_asc key l ≡ₚ l.
Proof.
  induction l as [|x l IH]; simpl; [done |].
  by rewrite insert_by_perm, IH.
Qed.

Lemma sorted_perm l b : sorted key l b ≡ₚ l.
Proof.
  destruct b; simpl; [| apply sort_asc_perm].
  by rewrite reverse_Permutation, sort_asc_perm, reverse_Permutation.
Qed.

Lemma filter_insert_by k x l :
  filter (same_key key k) (insert_by key x l) = filter (same_key key k) (x :: l).
Proof.
  induction l as [|y ys IH]; simpl; [done |].
  destruct (Qltb (key y) (key x)) eqn:Hlt; [| done].
  apply Qltb_lt in Hlt.
  rewrite (filter_cons _ y), IH, !filter_cons.
  unfold same_key in *.
  repeat case_decide; try done.
  exfalso. apply (Qlt_irrefl k). by rewrite <- H at 1; rewrite <- H0.
Qed.

Lemma sort_asc_stable k l :
  filter (same_key key k) (sort_asc key l) = filter (same_key key k) l.
Proof.
  induction l as [|x l IH]; simpl; [done |].
  by rewrite filter_insert_by, !filter_cons, IH.
Qed.

Lemma sorted_stable k l b :
  filter (same_key key k) (sorted key l b) = filter (same_key key k) l.
Proof.
  destruct b; simpl; [| apply sort_asc_stable].
  by rewrite filter_reverse, sort_asc_stable, filter_reverse,
    reverse_involutive.
Qed.

Lemma key_then_trans before :
  Transitive before → Transitive (key_then key before).
Proof.
  intros Ht a b c [Hab|[Hab Bab]] [Hbc|[Hbc Bbc]]; unfold key_then.
  - left. by apply Qlt_trans with (key b).
  - left. by rewrite <- Hbc.
  - left. by rewrite Hab.
  - right. split; [by rewrite Hab | by apply (Ht a b c)].
Qed.

Lemma insert_by_key_then before x l :
  Transitive before →
  Forall (before x) l →
  StronglySorted (key_then key before) l →
  StronglySorted (key_then key before) (insert_by key x l).
Proof.
  intros Ht Hx Hl. induction Hl as [|y ys Hys IH Hy]; simpl.
  - repeat constructor.
  - apply Forall_cons in Hx as [Hxy Hxys].
    destruct (Qltb (key y) (key x)) eqn:Hlt.
    + apply Qltb_lt in Hlt. constructor; [by apply IH |].
      rewrite insert_by_perm. constructor; [by left | done].
    + apply Qltb_ge in Hlt.
      assert (Hxy' : key_then key before x y).
      { apply Qle_lteq in Hlt as [Hlt|Heq]; [by left | by right]. }
      constructor; [by constructor |].
      constructor; [done |].
      eapply Forall_impl; [exact Hy |].
      intros z Hz. by apply (key_then_trans before Ht x y z).
Qed.

Lemma sort_asc_key_then before l :
  Transitive before →
  StronglySorted before l →
  StronglySorted (key_then key before) (sort_asc key l).
Proof.
  intros Ht. induction 1 as [|x l Hl IH Hx]; simpl; [constructor |].
  apply insert_by_key_then; [done | | done].
  by rewrite sort_asc_perm.
Qed.

Lemma sort_asc_sorted l :
  StronglySorted (λ a b, key a <= key b) (sort_asc key l).
Proof.
  induction l as [|x l IH]; simpl; [constructor |].
  generalize dependent (sort_asc key l). clear l.
  intros l Hl. induction Hl as [|y ys Hys IH Hy]; simpl.
  - repeat constructor.
  - destruct (Qltb (key y) (key x)) eqn:Hlt.
    + apply Qltb_lt in Hlt. constructor; [done |].
      rewrite insert_by_perm. constructor; [by apply Qlt_le_weak | done].
    + apply Qltb_ge in Hlt. constructor; [by constructor |].
      constructor; [done |].
      eapply Forall_impl; [exact Hy |].
      intros z Hz. simpl in Hz. by apply Qle_trans with (key y).
Qed.

(** [sorted(l, key, reverse=True)] is in descending order of key. *)
Lemma sorted_descending l :
  StronglySorted (λ a b, key b <= key a) (sorted key l true).
Proof.
  simpl. apply (StronglySorted_reverse (λ a b, key a <= key b)).
  apply sort_asc_sorted.
Qed.
End SortingFacts.

(** ** Errors, slices and the shortlist *)

Lemma bind_Ok {A B} (a : A) (k : A → result B) : Ok a ≫= k = k a.
Proof. done. Qed.

Lemma for_each_Ok {A B} (f : A → result B) (l : list A) (ys : list B) :
  for_each f l = Ok ys ↔ Forall2 (λ x y, f x = Ok y) l ys.
Proof.
  revert ys. induction l as [|x l IH]; intros ys; simpl.
  - split; [intros [= <-]; constructor | by inversion 1].
  - unfold mbind, result_bind, bind. split.
    + destruct (f x) as [y|] eqn:Hx; [| done].
      destruct (for_each f l) as [ys'|] eqn:Hl; [| done].
      intros [= <-]. constructor; [done | by apply IH].
    + inversion 1 as [|? y ? ys' Hx Hl]; subst. rewrite Hx.
      apply IH in Hl. by rewrite Hl.
Qed.

Lemma for_each_total {A B} (f : A → result B) (l : list A) :
  Forall (λ x, ∃ y, f x = Ok y) l → ∃ ys, for_each f l = Ok ys.
Proof.
  induction 1 as [|x l [y Hy] _ [ys Hys]]; [by exists [] |].
  exists (y :: ys). apply for_each_Ok. constructor; [done |].
  by apply for_each_Ok.
Qed.

Lemma slice_to_prefix {A} (l : list A) (k : Z) :
  ∃ rest, l = slice_to l k ++ rest.
Proof.
  unfold slice_to. destruct (0 <=? k)%Z; eexists; symmetry; apply take_drop.
Qed.

Lemma length_slice_to {A} (l : list A) (k : Z) :
  length (slice_to l k) =
    if (0 <=? k)%Z then Nat.min (Z.to_nat k) (length l)
    else (length l - Z.to_nat (- k))%nat.
Proof.
  unfold slice_to. destruct (0 <=? k)%Z; rewrite length_take; lia.
Qed.

Lemma argsort_perm (a : list Q) : argsort a ≡ₚ seq 0 (length a).
Proof. apply sort_asc_perm. Qed.

Lemma StronglySorted_seq (start len : nat) :
  StronglySorted lt (seq start len).
Proof.
  revert start. induction len as [|len IH]; intros start; simpl;
    constructor; [apply IH |].
  apply Forall_forall. intros i Hi%elem_of_seq. lia.
Qed.

(** The full ranking: by similarity, highest first, and among equal
    similarities by index, highest first. *)
Lemma ranking_sorted (a : list Q) :
  StronglySorted (flip (key_then (λ i, a !!! i) lt)) (reverse (argsort a)).
Proof.
  apply StronglySorted_reverse, sort_asc_key_then; [apply _ |].
  apply StronglySorted_seq.
Qed.

Lemma shortlist_prefix (a : list Q) (k : Z) :
  ∃ rest, reverse (argsort a) = shortlist a k ++ rest.
Proof. apply slice_to_prefix. Qed.

Lemma shortlist_lt (a : list Q) (k : Z) (i : nat) :
  i ∈ shortlist a k → (i < length a)%nat.
Proof.
  destruct (shortlist_prefix a k) as [rest Hr]. intros Hi.
  assert (Hin : i ∈ reverse (argsort a)) by (rewrite Hr; set_solver).
  rewrite elem_of_reverse, argsort_perm in Hin.
  apply elem_of_seq in Hin. lia.
Qed.

Lemma shortlist_NoDup (a : list Q) (k : Z) : NoDup (shortlist a k).
Proof.
  destruct (shortlist_prefix a k) as [rest Hr].
  assert (Hnd : NoDup (reverse (argsort a))).
  { rewrite reverse_Permutation, argsort_perm. apply NoDup_seq. }
  rewrite Hr in Hnd. by apply NoDup_app in Hnd as [? _].
Qed.

Lemma length_shortlist (a : list Q) (k : Z) :
  length (shortlist a k) =
    if (0 <=? k)%Z then Nat.min (Z.to_nat k) (length a)
    else (length a - Z.to_nat (- k))%nat.
Proof.
  unfold shortlist. rewrite length_slice_to, length_reverse.
  assert (Hl : length (argsort a) = length a).
  { by rewrite argsort_perm, length_seq. }
  by rewrite Hl.
Qed.

(** ** What [compute_scores] returns *)

Section ComputeScores.
Context (cosine : vec → vec → Q).
Context (bio : pystr) (posts : list pystr).
Context (personalities : list Persona) (personalities_vectors : list vec).
Context (embedding_model : SentenceTransformer) (zero_shot : Pipeline).
Context (alpha beta : Q) (top_k : Z) (weight_bio : Q).

#[local] Abbreviation sims :=
  (similarities cosine bio posts personalities_vectors embedding_model
     weight_bio).
#[local] Abbreviation top_idxs := (shortlist sims top_k).
#[local] Abbreviation rows_for :=
  (score_rows cosine bio posts personalities_vectors embedding_model
     zero_shot alpha beta top_k weight_bio).

Lemma shortlist_labels_Ok (idxs : list nat) (labels : list pystr) :
  for_each (λ i, p ← index personalities i; Ok (label p)) idxs = Ok labels ↔
  Forall2 (λ i l, label <$> personalities !! i = Some l) idxs labels.
Proof.
  rewrite for_each_Ok.
  split; intros H; (eapply Forall2_impl; [exact H |]); intros i l;
    unfold index, mbind, result_bind, bind;
    destruct (personalities !! i); simpl; congruence.
Qed.

Lemma rows_Ok (zss : gmap pystr Q) (idxs : list nat) (labels : list pystr) :
  Forall (λ i, (i < length sims)%nat) idxs →
  for_each (λ '(i, label),
              sim ← index sims i;
              Ok (score_entry alpha beta zss sim label))
           (zip idxs labels)
  = Ok (zip_with (λ i label, score_entry alpha beta zss (sims !!! i) label)
          idxs labels).
Proof.
  intros Hlt. revert labels.
  induction Hlt as [|i idxs Hi _ IH]; intros [|l labels]; simpl; try done.
  unfold index. rewrite (list_lookup_lookup_total_lt sims i Hi).
  by rewrite bind_Ok, IH, !bind_Ok.
Qed.

Lemma compute_scores_Ok (res : list ScoreResult) :
  compute_scores cosine bio posts personalities personalities_vectors
    embedding_model zero_shot alpha beta top_k weight_bio = Ok res ↔
  ∃ labels,
    Forall2 (λ i l, label <$> personalities !! i = Some l) top_idxs labels ∧
    res = sorted zero_shot_score (rows_for labels) true.
Proof.
  unfold compute_scores. cbv zeta.
  change (index (cosine_similarity cosine _ personalities_vectors) 0)
    with (Ok sims).
  rewrite bind_Ok. fold (classifier_text bio posts).
  assert (Hlt : Forall (λ i, (i < length sims)%nat) top_idxs).
  { apply Forall_forall. intros i Hi. by apply shortlist_lt in Hi. }
  pose proof (shortlist_labels_Ok top_idxs) as Hlabels.
  destruct (for_each (λ i, p ← index personalities i; Ok (label p))
              top_idxs) as [labels|] eqn:Hl.
  - rewrite bind_Ok, rows_Ok, bind_Ok by done. split.
    + intros [= <-]. exists labels. split; [by apply Hlabels | done].
    + intros (labels' & Hl' & ->). apply Hlabels in Hl'.
      by injection Hl' as ->.
  - split; [done |]. intros (labels' & Hl' & _). by apply Hlabels in Hl'.
Qed.

End ComputeScores.

Lemma Forall2_zip_with_r {A B C} (P : A → C → Prop) (Q' : A → B → Prop)
    (f : A → B → C) (l : list A) (k : list B) :
  (∀ a b, Q' a b → P a (f a b)) →
  Forall2 Q' l k → Forall2 P l (zip_with f l k).
Proof. intros Hf. induction 1; simpl; constructor; auto. Qed.

Lemma zip_with_labels {A} (g : A → pystr → ScoreResult)
    (idxs : list A) (labels : list pystr) :
  (∀ i l, score_label (g i l) = l) →
  length idxs = length labels →
  map score_label (zip_with g idxs labels) = labels.
Proof.
  intros Hg. revert labels.
  induction idxs as [|i idxs IH]; intros [|l labels] Hlen; simpl in *;
    try done.
  rewrite Hg, IH; [done | lia].
Qed.

(** ** The fused score *)

Lemma score_entries_fused (P : nat → Prop) (personalities : list Persona)
    (sims : list Q) (zss : gmap pystr Q) (alpha beta : Q)
    (idxs : list nat) (labels : list pystr) :
  Forall2 (λ i l, label <$> personalities !! i = Some l) idxs labels →
  Forall (λ i, P i ∧ (i < length sims)%nat) idxs →
  Forall
    (λ r, ∃ i sim zsc,
       P i ∧
       label <$> personalities !! i = Some (score_label r) ∧
       sims !! i = Some sim ∧
       zsc = get zss (score_label r) 0 ∧
       embed_score r = round sim 3 ∧
       zero_shot_score r = round zsc 3 ∧
       combined_score r = round (alpha * sim + beta * zsc) 3)
    (zip_with (λ i l, score_entry alpha beta zss (sims !!! i) l) idxs labels).
Proof.
  induction 1 as [|i l idxs labels Hil _ IH]; intros Hall; simpl;
    [constructor |].
  apply Forall_cons in Hall as [[HP Hi] Hall].
  constructor; [| by apply IH].
  exists i, (sims !!! i), (get zss l 0). simpl.
  split_and!; try done. by apply list_lookup_lookup_total_lt.
Qed.

(** C2 fails as stated: with the default weights 0.3 and 0.7, a persona of
    similarity 0.8 and classifier score 0.9976 gets [zero_shot_score] 0.998
    and [combined_score] 0.938, where the fusion of the rounded scores
    would be 0.939. *)
Lemma compute_scores_fusion_of_rounded_scores_fails :
  ∃ res,
    Demo.run (py "hiker") [] 3 = Ok res ∧
    ¬ Forall
        (λ r, combined_score r
              == round (ALPHA_DEFAULT * embed_score r
                        + BETA_DEFAULT * zero_shot_score r) 3)
        res.
Proof.
  eexists. split; [vm_compute; reflexivity |].
  intros H. apply Forall_inv in H. vm_compute in H. discriminate H.
Qed.

(** ** The user vector *)

Lemma mean_axis0_single (v : vec) : Forall2 Qeq (mean_axis0 [v]) v.
Proof.
  unfold mean_axis0. simpl. induction v as [|x v IH]; simpl; constructor;
    [| done].
  unfold Qdiv. change (/ inject_Z 1) with 1. apply Qmult_1_r.
Qed.

(** C3, as the code has it.  With no posts there is one text, the stripped
    bio, and one weighted vector; its mean over one row is the row itself:
    the user vector is [weight_bio] times the embedding of the stripped bio.
    Nothing divides by [weight_bio]. *)
Theorem embed_user_input_no_posts
    (bio : pystr) (model : SentenceTransformer) (weight_bio : Q) :
  Forall2 Qeq (embed_user_input bio [] model weight_bio)
    (map (Qmult weight_bio) (model (strip bio))).
Proof. apply mean_axis0_single. Qed.

(** C3 fails as stated: with the default weight 2 the user vector of a bio
    whose embedding is (3/5, 4/5) is (6/5, 8/5), not the bio vector. *)
Lemma embed_user_input_no_posts_is_not_bio_vector :
  Demo.model (py "hiker") = [3 # 5; 4 # 5] ∧
  embed_user_input (py "hiker") [] Demo.model weight_bio_default
    = [6 # 5; 8 # 5] ∧
  ¬ Forall2 Qeq
      (embed_user_input (py "hiker") [] Demo.model weight_bio_default)
      (Demo.model (py "hiker")).
Proof.
  split_and!; [vm_compute; reflexivity.. |].
  intros H. apply Forall2_cons_1 in H as [H _]. vm_compute in H.
  discriminate H.
Qed.

(** C5 fails as stated: with an empty bio and no posts the call returns a
    score list; it does not fail. *)
Lemma compute_scores_empty_input_returns :
  embed_user_input [] [] Demo.model weight_bio_default = [0; 2] ∧
  ∃ res,
    Demo.run [] [] 1 = Ok res ∧
    map score_label res = [py "Foodie"] ∧
    ∀ e, Demo.run [] [] 1 ≠ Raise e.
Proof.
  split; [vm_compute; reflexivity |].
  eexists. split_and!; [vm_compute; reflexivity.. |].
  intros e H. vm_compute in H. discriminate H.
Qed.

(** ** Sizes, labels and score bounds *)

Lemma dict_lookup `{Countable K} {V} (pairs : list (K * V)) (k : K) (v : V) :
  dict pairs !! k = Some v → (k, v) ∈ pairs.
Proof.
  unfold dict.
  assert (Hgen : ∀ m0 : gmap K V,
    foldl (λ m kv, <[kv.1 := kv.2]> m) m0 pairs !! k = Some v →
    m0 !! k = Some v ∨ (k, v) ∈ pairs).
  { induction pairs as [|[k' v'] pairs IH]; intros m0; simpl; [by left |].
    intros [Hm | Hin]%IH; [| right; by right].
    destruct (decide (k' = k)) as [->|Hne].
    - rewrite lookup_insert_eq in Hm. injection Hm as ->. right. by left.
    - rewrite lookup_insert_ne in Hm by done. by left. }
  intros [Hm | Hin]%Hgen; [| done]. by rewrite lookup_empty in Hm.
Qed.

Lemma get_dict_zip_unit_interval (ks : list pystr) (vs : list Q) (k : pystr) :
  Forall (λ s, 0 <= s <= 1) vs → 0 <= get (dict (zip ks vs)) k 0 <= 1.
Proof.
  intros Hvs. unfold get.
  destruct (dict (zip ks vs) !! k) as [v|] eqn:Hk; simpl; [| lra].
  apply dict_lookup, elem_of_zip_r in Hk.
  rewrite Forall_forall in Hvs. by apply Hvs.
Qed.

(** ** Post-style insights *)

Lemma length_split_acc (word s : pystr) :
  length (split_acc word s)
    = match word with
      | [] => tokens_from true s
      | _ => S (tokens_from false s)
      end.
Proof.
  revert word. induction s as [|c rest IH]; intros word; simpl.
  - by destruct word.
  - destruct (is_space c).
    + destruct word; simpl; by rewrite IH.
    + rewrite IH. by destruct word.
Qed.

(** [len(s.split())] counts the whitespace-delimited tokens. *)
Lemma length_split (s : pystr) : length (split s) = whitespace_tokens s.
Proof. apply length_split_acc. Qed.

Lemma sum_lengths {A} (ls : list (list A)) :
  sum (map length ls) = length (concat ls).
Proof.
  induction ls as [|l ls IH]; simpl; [done |]. by rewrite length_app, IH.
Qed.

Lemma sum_map {A} (f : A → nat) (l : list A) :
  sum (map f l) = sum_list_with f l.
Proof. induction l as [|x l IH]; simpl; [done |]. by rewrite IH. Qed.

Lemma sum_ones {A} (l : list A) : sum (map (λ _, 1%nat) l) = length l.
Proof. induction l as [|x l IH]; simpl; [done |]. by rewrite IH. Qed.

Lemma sum_counts (c : N) (ls : list pystr) :
  sum (map (λ p, count p c) ls) = count (concat ls) c.
Proof.
  unfold count. induction ls as [|l ls IH]; simpl; [done |].
  by rewrite filter_app, length_app, IH.
Qed.

Section InsightsFacts.
Context (is_emoji : pystr → bool).

Lemma posts_with_emoji_count (posts : list pystr) :
  sum (map (λ _, 1%nat)
         (filter (λ p, existsb (λ c, is_emoji [c]) p) posts))
  = length (filter (has_emoji is_emoji) posts).
Proof.
  rewrite sum_ones. f_equal. apply list_filter_iff. intros p.
  unfold has_emoji. rewrite Exists_exists.
  split.
  - intros Hp%Is_true_true%existsb_exists. destruct Hp as (c & Hc & Hec).
    exists c. split; [by apply list_elem_of_In | by apply Is_true_true].
  - intros (c & Hc & Hec). apply Is_true_true, existsb_exists.
    exists c. split; [by apply list_elem_of_In | by apply Is_true_true].
Qed.

(** The four fields of a non-empty input, in terms of the text. *)
Lemma post_style_insights_cons (p : pystr) (ps : list pystr) :
  let posts := p :: ps in
  let n := length posts in
  post_style_insights is_emoji posts
  = {[ "avg_post_length_chars" :=
         round (true_div (length (concat posts)) n) 1;
       "avg_post_length_words" :=
         round (true_div (sum_list_with whitespace_tokens posts) n) 1;
       "emoji_usage_percent" :=
         round (true_div (100 * length (filter (has_emoji is_emoji) posts)) n) 1;
       "avg_exclamations_per_post" :=
         round (true_div (count (concat posts) 33) n) 2 ]}.
Proof.
  intros posts n. unfold post_style_insights. cbv iota zeta.
  fold posts. fold n.
  rewrite sum_lengths, posts_with_emoji_count, sum_counts, sum_map.
  rewrite insert_empty.
  assert (Hw : sum_list_with (λ q, length (split q)) posts
               = sum_list_with whitespace_tokens posts).
  { clear. induction posts as [|q qs IH]; simpl; [done |].
    by rewrite IH, length_split. }
  by rewrite Hw.
Qed.
End InsightsFacts.

(** C8, as the code has it.  For the two posts of the scenario, with any
    emoji test that accepts the mountain pictograph U+1F3D4 and rejects
    ASCII: [avg_exclamations_per_post] is 1.5, [emoji_usage_percent] is 50.0
    and [avg_post_length_words] is 3.5, the seven tokens of the two posts
    over 2. *)
Theorem post_style_insights_scenario (is_emoji : pystr → bool) :
  is_emoji [0x1F3D4%N] = true →
  (∀ c, (c < 128)%N → is_emoji [c] = false) →
  let m := post_style_insights is_emoji Demo.posts in
  ∃ e u w,
    m !! "avg_exclamations_per_post" = Some e ∧ e == 3 # 2 ∧
    m !! "emoji_usage_percent" = Some u ∧ u == 50 ∧
    m !! "avg_post_length_words" = Some w ∧ w == 7 # 2.
Proof.
  intros Hmountain Hascii m. unfold m, Demo.posts.
  rewrite post_style_insights_cons.
  set (post1 := py "I love hiking! " ++ [0x1F3D4; 0xFE0F]%N).
  set (post2 := py "Best trail ever!!").
  assert (H1 : has_emoji is_emoji post1).
  { apply Exists_exists. exists 0x1F3D4%N. split; [| by rewrite Hmountain].
    apply elem_of_app. right. by left. }
  assert (H2 : ¬ has_emoji is_emoji post2).
  { intros (c & Hc & Hec)%Exists_exists.
    assert (Hlt : Forall (λ c, (c < 128)%N) post2).
    { unfold post2. simpl. repeat (constructor; [reflexivity |]). constructor. }
    rewrite Forall_forall in Hlt. by rewrite (Hascii c (Hlt c Hc)) in Hec. }
  assert (Hn : length (filter (has_emoji is_emoji) [post1; post2]) = 1%nat).
  { rewrite filter_cons_True, filter_cons_False by done. done. }
  rewrite Hn.
  do 3 eexists. split_and!.
  - by simplify_map_eq.
  - vm_compute. reflexivity.
  - by simplify_map_eq.
  - vm_compute. reflexivity.
  - by simplify_map_eq.
  - vm_compute. reflexivity.
Qed.

Lemma post_style_insights_scenario_witness :
  Demo.is_emoji [0x1F3D4%N] = true ∧
  (∀ c, (c < 128)%N → Demo.is_emoji [c] = false) ∧
  let m := post_style_insights Demo.is_emoji Demo.posts in
  ∃ e u w,
    m !! "avg_exclamations_per_post" = Some e ∧ e == 3 # 2 ∧
    m !! "emoji_usage_percent" = Some u ∧ u == 50 ∧
    m !! "avg_post_length_words" = Some w ∧ w == 7 # 2.
Proof.
  assert (Hascii : ∀ c, (c < 128)%N → Demo.is_emoji [c] = false).
  { intros c Hc. unfold Demo.is_emoji.
    apply orb_false_intro; apply andb_false_intro1; apply N.leb_gt; lia. }
  split_and!; [reflexivity | exact Hascii |].
  apply (post_style_insights_scenario Demo.is_emoji);
    [reflexivity | exact Hascii].
Defined.

(** C8 fails as stated: the two posts have 4 and 3 whitespace-delimited
    tokens, so [avg_post_length_words] is 3.5 and not 4.0. *)
Lemma post_style_insights_scenario_words_not_four :
  map whitespace_tokens Demo.posts = [4; 3]%nat ∧
  ∃ w,
    post_style_insights Demo.is_emoji Demo.posts !! "avg_post_length_words"
      = Some w ∧
    w == 7 # 2 ∧ ¬ w == 4.
Proof.
  split; [vm_compute; reflexivity |].
  eexists. split_and!; [vm_compute; reflexivity.. |].
  intros H. vm_compute in H. discriminate H.
Qed.

(** ** Product recommendations *)

Lemma candidate_products_nil (top_personas : list pystr)
    (product_catalog : gmap pystr (list Product)) :
  candidate_products top_personas product_catalog = [] ↔
  Forall (λ persona, product_catalog !! persona = None
                     ∨ product_catalog !! persona = Some [])
    top_personas.
Proof.
  unfold candidate_products, get.
  induction top_personas as [|persona rest IH]; simpl; [done |].
  rewrite Forall_cons, <- IH. split.
  - intros [Hp Hrest]%app_eq_nil. split; [| done].
    destruct (product_catalog !! persona); simpl in *; [right | left];
      congruence.
  - intros [[-> | ->] ->]; done.
Qed.

Section RecommendProducts.
Context (cosine : vec → vec → Q).
Context (posts : list pystr) (top_personas : list pystr).
Context (product_catalog : gmap pystr (list Product)).
Context (model : SentenceTransformer) (top_k : Z).

Lemma recommend_products_Ok :
  recommend_products cosine posts top_personas product_catalog model top_k
  = Ok (slice_to
          (sorted score
             (map (recommendation_for cosine posts model)
                (candidate_products top_personas product_catalog))
             true)
          top_k).
Proof.
  unfold recommend_products. cbv zeta.
  change (index (encode_text (Text (join (py " ") posts)) model) 0)
    with (Ok (model (join (py " ") posts))).
  rewrite bind_Ok.
  destruct (candidate_products top_personas product_catalog)
    as [|p products] eqn:Hc.
  - unfold slice_to. simpl. rewrite reverse_nil, take_nil.
    by destruct (0 <=? top_k)%Z.
  - set (u := model (join (py " ") posts)).
    change (index (cosine_similarity cosine [u] ?vs) 0)
      with (Ok (map (cosine u) vs)).
    rewrite bind_Ok. do 3 f_equal.
    unfold encode_text, model_encode.
    generalize (p :: products). intros l.
    induction l as [|q l IH]; [done |].
    cbn [map zip_with]. f_equal. exact IH.
Qed.
End RecommendProducts.

Lemma StronglySorted_slice_to {A} (R : relation A) (l : list A) (k : Z) :
  StronglySorted R l → StronglySorted R (slice_to l k).
Proof.
  destruct (slice_to_prefix l k) as [rest Hrest]. rewrite Hrest at 1.
  apply StronglySorted_app_1_l.
Qed.

(** C9.  When no given persona has an entry in the catalog (it is absent,
    or its list is empty), and so in particular when no persona is given,
    the candidate set is empty and [recommend_products] returns the empty
    list; it does not raise. *)
Theorem recommend_products_no_candidates
    (cosine : vec → vec → Q) (posts : list pystr) (top_personas : list pystr)
    (product_catalog : gmap pystr (list Product))
    (model : SentenceTransformer) (top_k : Z) :
  Forall (λ persona, product_catalog !! persona = None
                     ∨ product_catalog !! persona = Some [])
    top_personas →
  candidate_products top_personas product_catalog = [] ∧
  recommend_products cosine posts top_personas product_catalog model top_k
    = Ok [].
Proof.
  intros Hnone%candidate_products_nil. split; [done |].
  unfold recommend_products. cbv zeta.
  change (index (encode_text (Text (join (py " ") posts)) model) 0)
    with (Ok (model (join (py " ") posts))).
  by rewrite bind_Ok, Hnone.
Qed.

Lemma recommend_products_no_candidates_witness :
  Forall (λ persona, Demo.product_catalog !! persona = None
                     ∨ Demo.product_catalog !! persona = Some [])
    [py "Recluse"; py "Nobody"] ∧
  candidate_products [py "Recluse"; py "Nobody"] Demo.product_catalog = [] ∧
  recommend_products Demo.cosine Demo.posts [py "Recluse"; py "Nobody"]
    Demo.product_catalog Demo.model TOP_K = Ok [].
Proof.
  assert (H : Forall (λ persona, Demo.product_catalog !! persona = None
                                 ∨ Demo.product_catalog !! persona = Some [])
                [py "Recluse"; py "Nobody"]).
  { constructor; [right; vm_compute; reflexivity |].
    constructor; [left; vm_compute; reflexivity | constructor]. }
  split; [exact H |].
  apply (recommend_products_no_candidates Demo.cosine Demo.posts
           [py "Recluse"; py "Nobody"] Demo.product_catalog Demo.model TOP_K).
  exact H.
Defined.


(** * Further properties *)

(** ** More on [compute_scores] *)

Lemma Forall2_Permutation_l {A B} (R : A → B → Prop) (l l' : list A)
    (k : list B) :
  l ≡ₚ l' → Forall2 R l k → ∃ k', k ≡ₚ k' ∧ Forall2 R l' k'.
Proof.
  intros Hp. revert k. induction Hp as [|x l l' _ IH|x y l|l l' l'' _ IH1 _ IH2];
    intros k Hk.
  - inversion Hk; subst. by exists [].
  - inversion Hk as [|? z ? k0 Hxz Hk0]; subst.
    destruct (IH _ Hk0) as (k' & Hk' & HF). exists (z :: k').
    split; [by constructor | by constructor].
  - inversion Hk as [|? z1 ? k0 H1 Hk0]; subst.
    inversion Hk0 as [|? z2 ? k1 H2 Hk1]; subst.
    exists (z2 :: z1 :: k1). split; [apply Permutation_swap |].
    by repeat constructor.
  - destruct (IH1 _ Hk) as (k' & Hk' & HF').
    destruct (IH2 _ HF') as (k'' & Hk'' & HF'').
    exists k''. split; [by etrans | done].
Qed.

Lemma labels_of_all_indices (personalities : list Persona)
    (labels : list pystr) :
  Forall2 (λ i l, label <$> personalities !! i = Some l)
    (seq 0 (length personalities)) labels →
  labels = map label personalities.
Proof.
  intros HF. apply list_eq. intros i.
  change (map label personalities) with (label <$> personalities).
  rewrite list_lookup_fmap.
  destruct (decide (i < length personalities)%nat) as [Hi|Hi].
  - assert (Hs : seq 0 (length personalities) !! i = Some i).
    { by apply lookup_seq_lt. }
    destruct (Forall2_lookup_l _ _ _ _ _ HF Hs) as (l & Hl & Hil).
    by rewrite Hl, Hil.
  - assert (Hlen := Forall2_length _ _ _ HF). rewrite length_seq in Hlen.
    rewrite (lookup_ge_None_2 labels) by lia.
    by rewrite (lookup_ge_None_2 personalities) by lia.
Qed.

Lemma labels_NoDup (personalities : list Persona) (idxs : list nat)
    (labels : list pystr) :
  NoDup (map label personalities) → NoDup idxs →
  Forall2 (λ i l, label <$> personalities !! i = Some l) idxs labels →
  NoDup labels.
Proof.
  intros Hnd Hidxs HF. induction HF as [|i l idxs labels Hil HF IH];
    [constructor |].
  apply NoDup_cons in Hidxs as [Hi Hidxs]. constructor; [| by apply IH].
  intros Hl. apply list_elem_of_lookup in Hl as [n Hn].
  destruct (Forall2_lookup_r _ _ _ _ _ HF Hn) as (j & Hj & Hjl).
  assert (i = j); [| subst; apply Hi; by apply list_elem_of_lookup_2 with n].
  change (map label personalities) with (label <$> personalities) in Hnd.
  apply (NoDup_lookup _ i j l Hnd); by rewrite list_lookup_fmap.
Qed.

(** X3.  When the labels of the catalog are pairwise distinct, so are the
    labels of the returned entries: no persona is returned twice. *)
Theorem compute_scores_labels_distinct
    (cosine : vec → vec → Q) (bio : pystr) (posts : list pystr)
    (personalities : list Persona) (personalities_vectors : list vec)
    (embedding_model : SentenceTransformer) (zero_shot : Pipeline)
    (alpha beta : Q) (top_k : Z) (weight_bio : Q) (res : list ScoreResult) :
  NoDup (map label personalities) →
  compute_scores cosine bio posts personalities personalities_vectors
    embedding_model zero_shot alpha beta top_k weight_bio = Ok res →
  NoDup (map score_label res).
Proof.
  intros Hnd (labels & Hl & ->)%compute_scores_Ok.
  rewrite sorted_perm. unfold score_rows.
  rewrite zip_with_labels; [| done | by apply Forall2_length in Hl].
  eapply labels_NoDup; [done | apply shortlist_NoDup | done].
Qed.

Lemma compute_scores_labels_distinct_witness :
  NoDup (map label Demo.personalities) ∧
  ∃ res,
    Demo.run (py "hiker") [] 2 = Ok res ∧ NoDup (map score_label res).
Proof.
  assert (Hnd : NoDup (map label Demo.personalities)).
  { apply (bool_decide_unpack _). vm_compute. exact I. }
  split; [exact Hnd |]. eexists. split; [vm_compute; reflexivity |].
  apply (compute_scores_labels_distinct Demo.cosine (py "hiker") []
           Demo.personalities Demo.personalities_vectors Demo.model
           Demo.zero_shot ALPHA_DEFAULT BETA_DEFAULT 2 weight_bio_default);
    [exact Hnd | vm_compute; reflexivity].
Defined.

(** X4.  With one vector per persona and a [top_k] that is at least the
    number of personas, every persona of the catalog is returned, each as
    often as it is listed: the returned labels are a rearrangement of the
    catalog's labels. *)
Theorem compute_scores_returns_whole_catalog
    (cosine : vec → vec → Q) (bio : pystr) (posts : list pystr)
    (personalities : list Persona) (personalities_vectors : list vec)
    (embedding_model : SentenceTransformer) (zero_shot : Pipeline)
    (alpha beta : Q) (top_k : Z) (weight_bio : Q) (res : list ScoreResult) :
  length personalities_vectors = length personalities →
  (Z.of_nat (length personalities) ≤ top_k)%Z →
  compute_scores cosine bio posts personalities personalities_vectors
    embedding_model zero_shot alpha beta top_k weight_bio = Ok res →
  map score_label res ≡ₚ map label personalities.
Proof.
  intros Hlen Hk (labels & Hl & ->)%compute_scores_Ok.
  rewrite sorted_perm. unfold score_rows.
  rewrite zip_with_labels; [| done | by apply Forall2_length in Hl].
  set (sims := similarities _ _ _ _ _ _) in *.
  assert (Hsims : length sims = length personalities).
  { unfold sims, similarities. by rewrite length_map. }
  assert (Htop : shortlist sims top_k ≡ₚ seq 0 (length personalities)).
  { unfold shortlist, slice_to.
    destruct (Z.leb_spec 0 top_k) as [_|]; [| lia].
    rewrite take_ge.
    - by rewrite reverse_Permutation, argsort_perm, Hsims.
    - rewrite length_reverse.
      assert (Ha : length (argsort sims) = length sims).
      { by rewrite argsort_perm, length_seq. }
      lia. }
  destruct (Forall2_Permutation_l _ _ _ _ Htop Hl) as (k' & Hk' & HF).
  apply labels_of_all_indices in HF. by rewrite Hk', HF.
Qed.

Lemma compute_scores_returns_whole_catalog_witness :
  length Demo.personalities_vectors = length Demo.personalities ∧
  (Z.of_nat (length Demo.personalities) ≤ TOP_K)%Z ∧
  ∃ res,
    Demo.run (py "hiker") [] TOP_K = Ok res ∧
    map score_label res ≡ₚ map label Demo.personalities.
Proof.
  split_and!; [reflexivity | vm_compute; discriminate |].
  eexists. split; [vm_compute; reflexivity |].
  apply (compute_scores_returns_whole_catalog Demo.cosine (py "hiker") []
           Demo.personalities Demo.personalities_vectors Demo.model
           Demo.zero_shot ALPHA_DEFAULT BETA_DEFAULT TOP_K weight_bio_default);
    [reflexivity | vm_compute; discriminate | vm_compute; reflexivity].
Defined.

Lemma round_half_even_mono (x y : Q) :
  x <= y → (round_half_even x <= round_half_even y)%Z.
Proof.
  intros Hxy. pose proof (Qfloor_resp_le _ _ Hxy) as Hf.
  pose proof (Qfloor_le x) as Hx1. pose proof (Qlt_floor x) as Hx2.
  pose proof (Qfloor_le y) as Hy1. pose proof (Qlt_floor y) as Hy2.
  unfold round_half_even.
  destruct (Z.eq_dec (Qfloor x) (Qfloor y)) as [Heq|Hne].
  - rewrite <- Heq in *.
    destruct (Qcompare_spec (x - inject_Z (Qfloor x)) (1 # 2)) as [Ex|Lx|Gx];
      destruct (Qcompare_spec (y - inject_Z (Qfloor x)) (1 # 2)) as [Ey|Ly|Gy];
      try destruct (Z.even (Qfloor x)); try lia; exfalso; lra.
  - assert (Hlt : (Qfloor x + 1 <= Qfloor y)%Z) by lia.
    destruct (Qcompare (x - inject_Z (Qfloor x)) (1 # 2));
      destruct (Qcompare (y - inject_Z (Qfloor y)) (1 # 2));
      try destruct (Z.even (Qfloor x)); try destruct (Z.even (Qfloor y)); lia.
Qed.

Lemma round_mono (x y : Q) (ndigits : nat) :
  x <= y → round x ndigits <= round y ndigits.
Proof.
  intros Hxy. unfold round.
  set (s := (10 ^ Z.of_nat ndigits)%Z).
  assert (Hs : (0 < s)%Z) by (apply Z.pow_pos_nonneg; lia).
  assert (HsQ : inject_Z 0 < inject_Z s) by (by rewrite <- Zlt_Qlt).
  change (inject_Z 0) with 0 in HsQ.
  apply Qmult_le_compat_r; [| by apply Qlt_le_weak, Qinv_lt_0_compat].
  rewrite <- Zle_Qle. apply round_half_even_mono.
  apply Qmult_le_compat_r; [done | by apply Qlt_le_weak].
Qed.

Lemma round_of_integer (z : Z) (ndigits : nat) :
  round (inject_Z z) ndigits == inject_Z z.
Proof.
  unfold round. set (s := (10 ^ Z.of_nat ndigits)%Z).
  assert (Hs : (0 < s)%Z) by (apply Z.pow_pos_nonneg; lia).
  assert (HsQ : ¬ inject_Z s == 0).
  { intros H. apply (inject_Z_injective s 0) in H. lia. }
  assert (Hr : round_half_even (inject_Z z * inject_Z s) = (z * s)%Z).
  { unfold round_half_even. rewrite <- inject_Z_mult, Qfloor_Z.
    destruct (Qcompare_spec (inject_Z (z * s) - inject_Z (z * s)) (1 # 2))
      as [E|L|G]; [exfalso; lra | done | exfalso; lra]. }
  rewrite Hr, inject_Z_mult. by field.
Qed.

(** Rounding never leaves an interval with integer ends. *)
Lemma round_between (lo hi : Z) (x : Q) (ndigits : nat) :
  inject_Z lo <= x <= inject_Z hi →
  inject_Z lo <= round x ndigits <= inject_Z hi.
Proof.
  intros [Hlo Hhi]. split.
  - rewrite <- (round_of_integer lo ndigits). by apply round_mono.
  - rewrite <- (round_of_integer hi ndigits). by apply round_mono.
Qed.

Lemma dict_lookup_None `{Countable K} {V} (pairs : list (K * V)) (k : K) :
  k ∉ pairs.*1 → dict pairs !! k = None.
Proof.
  intros Hk. destruct (dict pairs !! k) as [v|] eqn:Hv; [| done].
  apply dict_lookup in Hv. exfalso. apply Hk.
  apply list_elem_of_fmap. by exists (k, v).
Qed.

(** X5.  The classifier is asked about the shortlisted labels, and an entry
    whose label is missing from the labels the classifier answers with gets
    [zero_shot_score] 0: a missing score is read as 0.0, it is no error. *)
Theorem compute_scores_unanswered_label_scores_zero
    (cosine : vec → vec → Q) (bio : pystr) (posts : list pystr)
    (personalities : list Persona) (personalities_vectors : list vec)
    (embedding_model : SentenceTransformer) (zero_shot : Pipeline)
    (alpha beta : Q) (top_k : Z) (weight_bio : Q) (res : list ScoreResult) :
  compute_scores cosine bio posts personalities personalities_vectors
    embedding_model zero_shot alpha beta top_k weight_bio = Ok res →
  ∃ labels,
    map score_label res ≡ₚ labels ∧
    Forall
      (λ r,
         score_label r ∉ zs_labels (zero_shot (classifier_text bio posts)
                                      labels) →
         zero_shot_score r == 0)
      res.
Proof.
  intros (labels & Hl & ->)%compute_scores_Ok. exists labels.
  rewrite !sorted_perm. unfold score_rows. split.
  - rewrite zip_with_labels; [done | done | by apply Forall2_length in Hl].
  - set (sims := similarities _ _ _ _ _ _).
    set (zs := zero_shot _ labels).
    eapply Forall_impl.
    + apply (score_entries_fused (λ _, True) personalities sims _ alpha beta);
        [exact Hl |].
      apply Forall_forall. intros i Hi. split; [done |].
      by apply shortlist_lt in Hi.
    + intros r (i & sim & zsc & _ & _ & _ & Hz & _ & Hzr & _) Hnot. cbv beta in *.
      rewrite Hzr, Hz. unfold get. rewrite dict_lookup_None.
      * simpl. apply (round_of_integer 0).
      * intros Hin. apply Hnot.
        apply list_elem_of_fmap in Hin as ([k v] & -> & Hkv).
        by apply elem_of_zip_l in Hkv.
Qed.

Lemma compute_scores_unanswered_label_scores_zero_witness :
  ∃ res,
    compute_scores Demo.cosine (py "hiker") [] Demo.personalities
      Demo.personalities_vectors Demo.model DemoApp.zero_shot_first
      ALPHA_DEFAULT BETA_DEFAULT 2 weight_bio_default = Ok res ∧
    map zero_shot_score res = [round 1 3; round 0 3] ∧
    ∃ labels,
      map score_label res ≡ₚ labels ∧
      Forall
        (λ r,
           score_label r
             ∉ zs_labels (DemoApp.zero_shot_first
                            (classifier_text (py "hiker") []) labels) →
           zero_shot_score r == 0)
        res.
Proof.
  eexists. split_and!; [vm_compute; reflexivity.. |].
  apply (compute_scores_unanswered_label_scores_zero Demo.cosine (py "hiker")
           [] Demo.personalities Demo.personalities_vectors Demo.model
           DemoApp.zero_shot_first ALPHA_DEFAULT BETA_DEFAULT 2
           weight_bio_default).
  vm_compute. reflexivity.
Defined.

(** X6.  When the similarities of the call lie in [-1,1], as cosines do, so
    does every returned [embed_score]: rounding to 3 places does not leave
    the interval. *)
Theorem compute_scores_embed_score_bounds
    (cosine : vec → vec → Q) (bio : pystr) (posts : list pystr)
    (personalities : list Persona) (personalities_vectors : list vec)
    (embedding_model : SentenceTransformer) (zero_shot : Pipeline)
    (alpha beta : Q) (top_k : Z) (weight_bio : Q) (res : list ScoreResult) :
  Forall (λ s, -1 <= s <= 1)
    (similarities cosine bio posts personalities_vectors embedding_model
       weight_bio) →
  compute_scores cosine bio posts personalities personalities_vectors
    embedding_model zero_shot alpha beta top_k weight_bio = Ok res →
  Forall (λ r, -1 <= embed_score r <= 1) res.
Proof.
  intros Hsims (labels & Hl & ->)%compute_scores_Ok.
  rewrite sorted_perm. unfold score_rows.
  set (sims := similarities _ _ _ _ _ _) in *.
  eapply Forall_impl.
  - apply (score_entries_fused (λ _, True) personalities sims _ alpha beta);
      [exact Hl |].
    apply Forall_forall. intros i Hi. split; [done |].
    by apply shortlist_lt in Hi.
  - intros r (i & sim & zsc & _ & _ & Hsim & _ & He & _). cbv beta.
    rewrite He. apply (round_between (-1) 1).
    rewrite Forall_forall in Hsims. apply Hsims.
    by apply list_elem_of_lookup_2 with i.
Qed.

Lemma compute_scores_embed_score_bounds_witness :
  Forall (λ s, -1 <= s <= 1)
    (similarities Demo.cosine (py "hiker") [] Demo.personalities_vectors
       Demo.model weight_bio_default) ∧
  ∃ res,
    Demo.run (py "hiker") [] 3 = Ok res ∧
    Forall (λ r, -1 <= embed_score r <= 1) res.
Proof.
  assert (Hs : Forall (λ s, -1 <= s <= 1)
    (similarities Demo.cosine (py "hiker") [] Demo.personalities_vectors
       Demo.model weight_bio_default)).
  { vm_compute. repeat (constructor; [split; discriminate |]). constructor. }
  split; [exact Hs |]. eexists. split; [vm_compute; reflexivity |].
  apply (compute_scores_embed_score_bounds Demo.cosine (py "hiker") []
           Demo.personalities Demo.personalities_vectors Demo.model
           Demo.zero_shot ALPHA_DEFAULT BETA_DEFAULT 3 weight_bio_default);
    [exact Hs | vm_compute; reflexivity].
Defined.

(** ** More on [recommend_products] *)


Lemma slice_to_all {A} (l : list A) (k : Z) :
  (Z.of_nat (length l) ≤ k)%Z → slice_to l k = l.
Proof.
  intros Hk. unfold slice_to. destruct (Z.leb_spec 0 k); [| lia].
  apply take_ge. lia.
Qed.



(** X8.  [recommend_products] returns as many entries as the slice
    [[:top_k]] of the candidates has: [min(top_k, number of candidates)]
    for a [top_k] that is not negative, and the number of candidates less
    [|top_k|] (at least none) for a negative one. *)
Theorem recommend_products_size
    (cosine : vec → vec → Q) (posts : list pystr) (top_personas : list pystr)
    (product_catalog : gmap pystr (list Product))
    (model : SentenceTransformer) (top_k : Z) :
  let n := length (candidate_products top_personas product_catalog) in
  ∃ recs,
    recommend_products cosine posts top_personas product_catalog model top_k
      = Ok recs ∧
    length recs
      = if (0 <=? top_k)%Z then Nat.min (Z.to_nat top_k) n
        else (n - Z.to_nat (- top_k))%nat.
Proof.
  intros n. eexists. split; [apply recommend_products_Ok |].
  rewrite length_slice_to.
  assert (Hlen : length (sorted score
                   (map (recommendation_for cosine posts model)
                      (candidate_products top_personas product_catalog))
                   true) = n).
  { by rewrite sorted_perm, length_map. }
  by rewrite Hlen.
Qed.


(** X10.  Nothing is deduplicated: when [top_k] is at least the number of
    candidates, the returned products are the catalog entries of the given
    personas, persona by persona, each as often as it is listed (also when
    a persona is given twice or two personas share a product). *)
Theorem recommend_products_keeps_duplicates
    (cosine : vec → vec → Q) (posts : list pystr) (top_personas : list pystr)
    (product_catalog : gmap pystr (list Product))
    (model : SentenceTransformer) (top_k : Z) :
  (Z.of_nat (length (candidate_products top_personas product_catalog))
   ≤ top_k)%Z →
  ∃ recs,
    recommend_products cosine posts top_personas product_catalog model top_k
      = Ok recs ∧
    map (λ r, (rec_product r, rec_category r)) recs
      ≡ₚ map (λ p, (product p, category p))
           (concat (map (λ persona, default [] (product_catalog !! persona))
                      top_personas)).
Proof.
  intros Hk. eexists. split; [apply recommend_products_Ok |].
  rewrite slice_to_all.
  - rewrite sorted_perm.
    change (map ?f (map ?g ?l)) with (f <$> (g <$> l)).
    by rewrite <- list_fmap_compose.
  - assert (Hlen : length (sorted score
                     (map (recommendation_for cosine posts model)
                        (candidate_products top_personas product_catalog))
                     true)
                   = length (candidate_products top_personas product_catalog)).
    { by rewrite sorted_perm, length_map. }
    lia.
Qed.

Lemma recommend_products_keeps_duplicates_witness :
  (Z.of_nat (length (candidate_products [py "Explorer"; py "Explorer"]
                       Demo.product_catalog)) ≤ 5)%Z ∧
  length (candidate_products [py "Explorer"; py "Explorer"]
            Demo.product_catalog) = 4%nat ∧
  ∃ recs,
    recommend_products Demo.cosine [py "hiker"] [py "Explorer"; py "Explorer"]
      Demo.product_catalog Demo.model 5 = Ok recs ∧
    map (λ r, (rec_product r, rec_category r)) recs
      ≡ₚ map (λ p, (product p, category p))
           (concat (map (λ persona,
                           default [] (Demo.product_catalog !! persona))
                      [py "Explorer"; py "Explorer"])).
Proof.
  split_and!; [vm_compute; discriminate | vm_compute; reflexivity |].
  apply (recommend_products_keeps_duplicates Demo.cosine [py "hiker"]
           [py "Explorer"; py "Explorer"] Demo.product_catalog Demo.model 5).
  vm_compute. discriminate.
Defined.

(** ** More on [post_style_insights] *)

Lemma true_div_nonneg (a b : nat) : 0 <= true_div a b.
Proof.
  unfold true_div. apply Qmult_le_0_compat.
  - change 0 with (inject_Z 0). rewrite <- Zle_Qle. lia.
  - apply Qinv_le_0_compat. change 0 with (inject_Z 0).
    rewrite <- Zle_Qle. lia.
Qed.

Lemma true_div_mono (a a' b : nat) :
  (a ≤ a')%nat → true_div a b <= true_div a' b.
Proof.
  intros Ha. unfold true_div. apply Qmult_le_compat_r.
  - rewrite <- Zle_Qle. lia.
  - apply Qinv_le_0_compat. change 0 with (inject_Z 0).
    rewrite <- Zle_Qle. lia.
Qed.

Lemma true_div_percent (k n : nat) :
  (k ≤ n)%nat → true_div (100 * k) n <= inject_Z 100.
Proof.
  intros Hk. destruct n as [|n].
  - assert (k = 0%nat) as -> by lia. by vm_compute.
  - unfold true_div. apply Qle_shift_div_r.
    + change 0 with (inject_Z 0). rewrite <- Zlt_Qlt. lia.
    + rewrite <- inject_Z_mult, <- Zle_Qle. lia.
Qed.

Lemma round_nonneg (x : Q) (ndigits : nat) : 0 <= x → 0 <= round x ndigits.
Proof.
  intros Hx. rewrite <- (round_of_integer 0 ndigits). by apply round_mono.
Qed.

Lemma tokens_from_le_length (after_space : bool) (s : pystr) :
  (tokens_from after_space s ≤ length s)%nat.
Proof.
  revert after_space. induction s as [|c rest IH]; intros b; simpl; [done |].
  destruct (is_space c).
  - pose proof (IH true). lia.
  - pose proof (IH false). destruct b; lia.
Qed.

Lemma sum_list_with_mono {A} (f g : A → nat) (l : list A) :
  (∀ x, f x ≤ g x)%nat → (sum_list_with f l ≤ sum_list_with g l)%nat.
Proof.
  intros Hfg. induction l as [|x l IH]; simpl; [done |].
  pose proof (Hfg x). lia.
Qed.

Section InsightsOrder.
Context (is_emoji : pystr → bool).

(** The result in terms of sums over the posts, which do not depend on the
    order of the posts. *)
Lemma post_style_insights_sums (p : pystr) (ps : list pystr) :
  let posts := p :: ps in
  let n := length posts in
  post_style_insights is_emoji posts
  = {[ "avg_post_length_chars" :=
         round (true_div (sum_list_with length posts) n) 1;
       "avg_post_length_words" :=
         round (true_div (sum_list_with whitespace_tokens posts) n) 1;
       "emoji_usage_percent" :=
         round (true_div
                  (100 * length (filter (has_emoji is_emoji) posts)) n) 1;
       "avg_exclamations_per_post" :=
         round (true_div (sum_list_with (λ q, count q 33) posts) n) 2 ]}.
Proof.
  intros posts n. unfold posts, n. rewrite post_style_insights_cons.
  by rewrite <- sum_lengths, <- sum_counts, !sum_map.
Qed.
End InsightsOrder.

(** X11.  The insights do not depend on the order of the posts. *)
Theorem post_style_insights_order_irrelevant
    (is_emoji : pystr → bool) (posts posts' : list pystr) :
  posts ≡ₚ posts' →
  post_style_insights is_emoji posts = post_style_insights is_emoji posts'.
Proof.
  intros Hp. destruct posts as [|p ps], posts' as [|p' ps'].
  - done.
  - by apply Permutation_nil_cons in Hp.
  - symmetry in Hp. by apply Permutation_nil_cons in Hp.
  - rewrite !post_style_insights_sums. cbv zeta.
    generalize dependent (p :: ps). generalize dependent (p' :: ps').
    intros l' l Hp. by rewrite Hp.
Qed.

Lemma post_style_insights_order_irrelevant_witness :
  Demo.posts ≡ₚ reverse Demo.posts ∧
  post_style_insights Demo.is_emoji Demo.posts
    = post_style_insights Demo.is_emoji (reverse Demo.posts).
Proof.
  assert (Hp : Demo.posts ≡ₚ reverse Demo.posts).
  { symmetry. apply reverse_Permutation. }
  split; [exact Hp |].
  apply (post_style_insights_order_irrelevant Demo.is_emoji Demo.posts
           (reverse Demo.posts)).
  exact Hp.
Defined.

(** X12.  On a non-empty list of posts none of the four values is negative,
    and [emoji_usage_percent] is at most 100. *)
Theorem post_style_insights_ranges
    (is_emoji : pystr → bool) (p : pystr) (ps : list pystr) :
  let m := post_style_insights is_emoji (p :: ps) in
  ∃ chars words emojis exclamations,
    m !! "avg_post_length_chars" = Some chars ∧
    m !! "avg_post_length_words" = Some words ∧
    m !! "emoji_usage_percent" = Some emojis ∧
    m !! "avg_exclamations_per_post" = Some exclamations ∧
    0 <= chars ∧ 0 <= words ∧ 0 <= emojis <= 100 ∧ 0 <= exclamations.
Proof.
  intros m. unfold m. rewrite post_style_insights_sums.
  do 4 eexists. split_and!; try by simplify_map_eq.
  - apply round_nonneg, true_div_nonneg.
  - apply round_nonneg, true_div_nonneg.
  - apply round_nonneg, true_div_nonneg.
  - rewrite <- (round_of_integer 100 1). apply round_mono.
    apply true_div_percent. apply (length_filter _ (p :: ps)).
  - apply round_nonneg, true_div_nonneg.
Qed.

(** X13.  The average number of words never exceeds the average number of
    characters: every token takes at least one character, and rounding to
    one place keeps the order. *)
Theorem post_style_insights_words_le_chars
    (is_emoji : pystr → bool) (p : pystr) (ps : list pystr) :
  let m := post_style_insights is_emoji (p :: ps) in
  ∃ chars words,
    m !! "avg_post_length_chars" = Some chars ∧
    m !! "avg_post_length_words" = Some words ∧
    words <= chars.
Proof.
  intros m. unfold m. rewrite post_style_insights_sums.
  do 2 eexists. split_and!; try by simplify_map_eq.
  apply round_mono, true_div_mono.
  apply (sum_list_with_mono whitespace_tokens length (p :: ps)).
  intros q. apply tokens_from_le_length.
Qed.

(** ** Whitespace: [strip], [split] and the posts of the sidebar *)

Lemma lstrip_spaces (ws s : pystr) :
  Forall (λ c, is_space c = true) ws → lstrip (ws ++ s) = lstrip s.
Proof.
  induction 1 as [|c ws Hc _ IH]; simpl; [done |]. by rewrite Hc.
Qed.

Lemma lstrip_decomp (s : pystr) :
  ∃ ws, s = ws ++ lstrip s ∧ Forall (λ c, is_space c = true) ws.
Proof.
  induction s as [|c s (ws & Hs & Hws)]; simpl; [by exists [] |].
  destruct (is_space c) eqn:Hc.
  - exists (c :: ws). split; [by rewrite Hs at 1 | by constructor].
  - by exists [].
Qed.

Lemma lstrip_head (s : pystr) :
  lstrip s = [] ∨ ∃ c r, lstrip s = c :: r ∧ is_space c = false.
Proof.
  induction s as [|c s IH]; simpl; [by left |].
  destruct (is_space c) eqn:Hc; [done |]. right. by exists c, s.
Qed.

Lemma lstrip_all_spaces (s : pystr) :
  Forall (λ c, is_space c = true) s → lstrip s = [].
Proof. induction 1 as [|c s Hc _ IH]; simpl; [done |]. by rewrite Hc. Qed.

Lemma lstrip_app_r (s ws : pystr) :
  lstrip s ≠ [] → lstrip (s ++ ws) = lstrip s ++ ws.
Proof.
  induction s as [|c s IH]; simpl; [done |].
  destruct (is_space c); [exact IH | done].
Qed.

Lemma strip_spaces_r (s ws : pystr) :
  Forall (λ c, is_space c = true) ws → strip (s ++ ws) = strip s.
Proof.
  intros Hws. unfold strip.
  destruct (decide (lstrip s = [])) as [He|Hne].
  - destruct (lstrip_decomp s) as (ws0 & Hs & Hws0). rewrite He in Hs |- *.
    rewrite app_nil_r in Hs. subst s.
    by rewrite (lstrip_all_spaces (ws0 ++ ws)) by (by apply Forall_app).
  - rewrite lstrip_app_r by done. rewrite reverse_app.
    by rewrite (lstrip_spaces (reverse ws)) by (by apply Forall_reverse).
Qed.

Lemma strip_spaces (ws s ws' : pystr) :
  Forall (λ c, is_space c = true) ws →
  Forall (λ c, is_space c = true) ws' →
  strip (ws ++ s ++ ws') = strip s.
Proof.
  intros Hws Hws'. rewrite app_assoc, strip_spaces_r by done.
  unfold strip. by rewrite lstrip_spaces.
Qed.

(** What [strip] leaves: the text between the whitespace at both ends,
    empty or with a character that is no whitespace at each end. *)
Lemma strip_spec (s : pystr) :
  (∃ ws ws',
     s = ws ++ strip s ++ ws' ∧
     Forall (λ c, is_space c = true) ws ∧
     Forall (λ c, is_space c = true) ws') ∧
  (strip s = [] ∨
   ∃ c c',
     head (strip s) = Some c ∧ is_space c = false ∧
     last (strip s) = Some c' ∧ is_space c' = false).
Proof.
  unfold strip.
  destruct (lstrip_decomp s) as (ws & Hs & Hws).
  destruct (lstrip_decomp (reverse (lstrip s))) as (ws' & Hr & Hws').
  set (a := lstrip s) in *. set (b := lstrip (reverse a)) in *.
  assert (Ha : a = reverse b ++ reverse ws').
  { by rewrite <- reverse_app, <- Hr, reverse_involutive. }
  split.
  - exists ws, (reverse ws'). split_and!; [| done | by apply Forall_reverse].
    by rewrite <- Ha.
  - destruct (lstrip_head (reverse a)) as [Hb | (c' & r & Hb & Hc')];
      fold b in Hb; rewrite Hb in *.
    + by left.
    + right. rewrite reverse_cons in *.
      destruct (lstrip_head s) as [Ha0 | (c & r0 & Ha0 & Hc)]; fold a in Ha0.
      * rewrite Ha0 in Ha. by destruct (reverse r).
      * exists c, c'. split_and!; [| done | by rewrite last_snoc | done].
        rewrite Ha0 in Ha. destruct (reverse r) as [|x xs]; simpl in *;
          by injection Ha as <-.
Qed.

Lemma tokens_from_pos (s : pystr) (c : N) :
  head s = Some c → is_space c = false → (1 ≤ whitespace_tokens s)%nat.
Proof.
  destruct s as [|c0 s]; [done |]. intros [= ->] Hc.
  unfold whitespace_tokens. simpl. rewrite Hc. lia.
Qed.

(** X14.  Whitespace around the bio does not change the user vector: the
    bio is stripped before it is encoded. *)
Theorem embed_user_input_ignores_bio_padding
    (ws ws' bio : pystr) (posts : list pystr) (model : SentenceTransformer)
    (weight_bio : Q) :
  Forall (λ c, is_space c = true) ws →
  Forall (λ c, is_space c = true) ws' →
  embed_user_input (ws ++ bio ++ ws') posts model weight_bio
    = embed_user_input bio posts model weight_bio.
Proof.
  intros Hws Hws'. unfold embed_user_input. by rewrite strip_spaces.
Qed.

Lemma embed_user_input_ignores_bio_padding_witness :
  Forall (λ c, is_space c = true) (py "  ") ∧
  Forall (λ c, is_space c = true) [9; 10]%N ∧
  embed_user_input (py "  " ++ py "hiker" ++ [9; 10]%N) [py "food"]
    Demo.model weight_bio_default
    = embed_user_input (py "hiker") [py "food"] Demo.model weight_bio_default.
Proof.
  assert (H1 : Forall (λ c, is_space c = true) (py "  ")).
  { repeat constructor. }
  assert (H2 : Forall (λ c, is_space c = true) [9; 10]%N).
  { repeat constructor. }
  split_and!; [exact H1 | exact H2 |].
  apply (embed_user_input_ignores_bio_padding (py "  ") [9; 10]%N
           (py "hiker") [py "food"] Demo.model weight_bio_default);
    [exact H1 | exact H2].
Defined.

Lemma splitlines_acc_no_break (s : pystr) :
  (∀ line,
     Forall (λ c, is_linebreak c = false) line →
     Forall (Forall (λ c, is_linebreak c = false)) (splitlines_acc line s)) ∧
  (∀ line,
     Forall (λ c, is_linebreak c = false) line →
     Forall (Forall (λ c, is_linebreak c = false))
       (splitlines_acc line (tail s))).
Proof.
  induction s as [|c rest [IH1 IH2]].
  - assert (H : ∀ line,
      Forall (λ c, is_linebreak c = false) line →
      Forall (Forall (λ c, is_linebreak c = false)) (splitlines_acc line [])).
    { intros line Hline. simpl.
      destruct line; [constructor | by constructor]. }
    by split.
  - split; [| exact IH1]. intros line Hline. simpl.
    destruct (is_linebreak c) eqn:Hc.
    + constructor; [done |].
      destruct (c =? 13)%N; [| by apply IH1].
      destruct rest as [|c' rest']; [by apply IH1 |].
      destruct (c' =? 10)%N; [by apply IH2 | by apply IH1].
    + apply IH1. apply Forall_app. split; [done |]. by repeat constructor.
Qed.

(** X16.  The posts the sidebar hands on are never blank: each one is
    non-empty, begins and ends with a character that is no whitespace, holds
    no line break, and so counts at least one word. *)
Theorem sidebar_posts_clean (posts_text : pystr) :
  Forall
    (λ p,
       p ≠ [] ∧
       (∃ c, head p = Some c ∧ is_space c = false) ∧
       (∃ c, last p = Some c ∧ is_space c = false) ∧
       Forall (λ c, is_linebreak c = false) p ∧
       (1 ≤ whitespace_tokens p)%nat)
    (sidebar_posts posts_text).
Proof.
  unfold sidebar_posts. apply Forall_forall. intros p Hp.
  apply list_elem_of_fmap in Hp as (l & -> & Hl).
  apply list_elem_of_filter in Hl as [Hne Hl].
  destruct (strip_spec l) as [(ws & ws' & Hdec & _ & _) [He | Hends]];
    [done |].
  destruct Hends as (c & c' & Hc & Hsc & Hc' & Hsc').
  split_and!.
  - done.
  - by exists c.
  - by exists c'.
  - destruct (splitlines_acc_no_break posts_text) as [Hlines _].
    specialize (Hlines [] (Forall_nil_2 _)).
    rewrite Forall_forall in Hlines. specialize (Hlines l Hl).
    rewrite Hdec in Hlines.
    by apply Forall_app in Hlines as [_ [? _]%Forall_app].
  - by apply (tokens_from_pos _ c).
Qed.

Lemma split_acc_tokens (word s : pystr) :
  Forall (λ c, is_space c = false) word →
  Forall (λ t, t ≠ [] ∧ Forall (λ c, is_space c = false) t)
    (split_acc word s) ∧
  concat (split_acc word s) = word ++ filter (λ c, is_space c = false) s.
Proof.
  revert word. induction s as [|c rest IH]; intros word Hword; simpl.
  - destruct word; simpl; [done |]. rewrite !app_nil_r.
    split; [| done]. constructor; [done | constructor].
  - destruct (is_space c) eqn:Hc.
    + rewrite filter_cons_False by (by rewrite Hc).
      destruct (IH [] (Forall_nil_2 _)) as [IHa IHb].
      destruct word as [|w word]; [done |].
      simpl. rewrite IHb. split; [| done]. by constructor.
    + rewrite filter_cons_True by done.
      destruct (IH (word ++ [c])) as [IHa IHb].
      { apply Forall_app. split; [done |]. by repeat constructor. }
      split; [done |]. by rewrite IHb, <- app_assoc.
Qed.

(** X17.  The tokens [split] finds are never empty and hold no whitespace,
    and together, in order, they are the text with its whitespace removed:
    splitting loses nothing but whitespace. *)
Theorem split_tokens (s : pystr) :
  Forall (λ t, t ≠ [] ∧ Forall (λ c, is_space c = false) t) (split s) ∧
  concat (split s) = filter (λ c, is_space c = false) s.
Proof. apply (split_acc_tokens [] s). constructor. Qed.

(** ** The weighted mean of [embed_user_input] *)

Lemma zip_with_Qplus_lookup (a r : vec) (k : nat) :
  (k < length a)%nat → (k < length r)%nat →
  zip_with Qplus a r !! k = Some (a !!! k + r !!! k).
Proof.
  intros Ha Hr. apply lookup_zip_with_Some.
  exists (a !!! k), (r !!! k).
  split_and!; [done | by apply list_lookup_lookup_total_lt..].
Qed.

Lemma foldl_vadd_lookup (D k : nat) (rs : list vec) (acc : vec) :
  length acc = D → Forall (λ r, length r = D) rs → (k < D)%nat →
  length (foldl (zip_with Qplus) acc rs) = D ∧
  ∃ x,
    foldl (zip_with Qplus) acc rs !! k = Some x ∧
    x == acc !!! k + foldr Qplus 0 (map (λ r, r !!! k) rs).
Proof.
  intros Hacc Hrs Hk. revert acc Hacc.
  induction Hrs as [|r rs Hr _ IH]; intros acc Hacc; simpl.
  - split; [done |]. exists (acc !!! k).
    split; [apply list_lookup_lookup_total_lt; lia | ring].
  - assert (Hlen : length (zip_with Qplus acc r) = D).
    { rewrite length_zip_with. lia. }
    destruct (IH _ Hlen) as (Hl & x & Hx & Hxe).
    split; [done |]. exists x. split; [done |].
    rewrite Hxe.
    assert (Hz : zip_with Qplus acc r !!! k = acc !!! k + r !!! k).
    { apply list_lookup_total_correct, zip_with_Qplus_lookup; lia. }
    rewrite Hz. ring.
Qed.

Lemma unit_weights (model : SentenceTransformer) (posts : list pystr) :
  zip_with (λ w v, map (Qmult w) v) (replicate (length posts) 1)
    (map model posts)
  = map (λ p, map (Qmult 1) (model p)) posts.
Proof. induction posts as [|p posts IH]; simpl; [done | by rewrite IH]. Qed.

Lemma scaled_lookup_total (w : Q) (v : vec) (k : nat) :
  (k < length v)%nat → map (Qmult w) v !!! k = w * v !!! k.
Proof.
  intros Hk. apply list_lookup_total_correct.
  change (map (Qmult w) v) with (Qmult w <$> v).
  by rewrite list_lookup_fmap, (list_lookup_lookup_total_lt v k Hk).
Qed.

(** X15.  With an encoder of dimension [D], the user vector has dimension
    [D], and each component is the bio's component times [weight_bio] plus
    the posts' components, over the number of texts [len(posts) + 1]: the
    sum of the weights is not what divides. *)
Theorem embed_user_input_components
    (bio : pystr) (posts : list pystr) (model : SentenceTransformer)
    (weight_bio : Q) (D k : nat) :
  (∀ text, length (model text) = D) → (k < D)%nat →
  length (embed_user_input bio posts model weight_bio) = D ∧
  ∃ x,
    embed_user_input bio posts model weight_bio !! k = Some x ∧
    x == (weight_bio * model (strip bio) !!! k
          + foldr Qplus 0 (map (λ p, model p !!! k) posts))
         / inject_Z (Z.of_nat (length posts + 1)).
Proof.
  intros Hdim Hk. unfold embed_user_input, encode_text, model_encode.
  cbn [map zip_with]. rewrite unit_weights. unfold mean_axis0.
  destruct (foldl_vadd_lookup D k
              (map (λ p, map (Qmult 1) (model p)) posts)
              (map (Qmult weight_bio) (model (strip bio))))
    as (Hlen & x & Hx & Hxe).
  - by rewrite length_map.
  - apply Forall_forall. intros r (p & -> & _)%list_elem_of_fmap.
    by rewrite length_map.
  - done.
  - split; [by rewrite length_map |].
    exists (x / inject_Z (Z.of_nat (length posts + 1))). split.
    + change (map ?f ?l) with (f <$> l) at 1.
      rewrite list_lookup_fmap, Hx. simpl.
      rewrite length_map. do 3 f_equal. lia.
    + rewrite Hxe, scaled_lookup_total by (by rewrite Hdim).
      apply Qmult_comp; [| done]. apply Qplus_comp; [done |].
      clear -Hdim Hk. induction posts as [|p posts IH]; simpl; [done |].
      rewrite IH, scaled_lookup_total by (by rewrite Hdim). ring.
Qed.

Lemma embed_user_input_components_witness :
  (∀ text, length (Demo.model text) = 2%nat) ∧ (0 < 2)%nat ∧
  length (embed_user_input (py "hiker") [py "food"; py "outdoors"] Demo.model
            weight_bio_default) = 2%nat ∧
  ∃ x,
    embed_user_input (py "hiker") [py "food"; py "outdoors"] Demo.model
      weight_bio_default !! 0%nat = Some x ∧
    x == (weight_bio_default * Demo.model (strip (py "hiker")) !!! 0%nat
          + foldr Qplus 0
              (map (λ p, Demo.model p !!! 0%nat) [py "food"; py "outdoors"]))
         / inject_Z (Z.of_nat (length [py "food"; py "outdoors"] + 1)).
Proof.
  assert (Hdim : ∀ text, length (Demo.model text) = 2%nat).
  { intros text. unfold Demo.model, get.
    destruct (dict _ !! text) as [v|] eqn:Hv; [| done].
    apply dict_lookup in Hv.
    match type of Hv with
    | _ ∈ ?table =>
        assert (Hall : Forall (λ kv, length kv.2 = 2%nat) table)
          by (repeat constructor)
    end.
    rewrite Forall_forall in Hall. apply (Hall _ Hv). }
  split; [exact Hdim |]. split; [lia |].
  apply (embed_user_input_components (py "hiker") [py "food"; py "outdoors"]
           Demo.model weight_bio_default 2 0); [exact Hdim | lia].
Defined.

(** ** The page: what [app.py] does with the results *)

(** X18.  [display_post_style] fails on the insights of the empty list of
    posts: the first key it reads, ["avg_post_length_words"], is missing
    from the empty map.  On the insights of any other list it draws its
    four boxes, words first, with the four values of the map. *)
Theorem display_post_style_needs_posts (is_emoji : pystr → bool) :
  display_post_style (post_style_insights is_emoji [])
    = Failed (KeyError "avg_post_length_words") ∧
  ∀ (p : pystr) (ps : list pystr),
    ∃ words chars emojis exclamations,
      display_post_style (post_style_insights is_emoji (p :: ps))
        = Done [("Avg words / post", words);
                ("Avg characters / post", chars);
                ("Posts with emojis", emojis);
                ("Exclamations / post", exclamations)] ∧
      post_style_insights is_emoji (p :: ps)
        = {[ "avg_post_length_chars" := chars;
             "avg_post_length_words" := words;
             "emoji_usage_percent" := emojis;
             "avg_exclamations_per_post" := exclamations ]}.
Proof.
  split; [done |]. intros p ps.
  rewrite post_style_insights_cons. cbv zeta.
  do 4 eexists. split; [| reflexivity].
  unfold display_post_style, subscript. by simplify_map_eq.
Qed.

Lemma compute_scores_labels_in_catalog
    (cosine : vec → vec → Q) (bio : pystr) (posts : list pystr)
    (personalities : list Persona) (personalities_vectors : list vec)
    (embedding_model : SentenceTransformer) (zero_shot : Pipeline)
    (alpha beta : Q) (top_k : Z) (weight_bio : Q) (res : list ScoreResult) :
  compute_scores cosine bio posts personalities personalities_vectors
    embedding_model zero_shot alpha beta top_k weight_bio = Ok res →
  Forall (λ r, ∃ p, p ∈ personalities ∧ label p = score_label r) res.
Proof.
  intros (labels & Hl & ->)%compute_scores_Ok.
  rewrite sorted_perm. unfold score_rows.
  set (sims := similarities _ _ _ _ _ _).
  eapply Forall_impl.
  - apply (score_entries_fused (λ _, True) personalities sims _ alpha beta);
      [exact Hl |].
    apply Forall_forall. intros i Hi. split; [done |].
    by apply shortlist_lt in Hi.
  - intros r (i & sim & zsc & _ & Hlab & _). cbv beta.
    destruct (personalities !! i) as [p|] eqn:Hp; [| done].
    injection Hlab as Hlab. exists p.
    split; [by apply list_elem_of_lookup_2 with i | done].
Qed.

(** X19.  [display_personas] finds a persona for every entry that
    [compute_scores] returns, so its lookup never runs dry: the card drawn
    for an entry is that of the first persona of the catalog that carries
    the entry's label. *)
Theorem display_personas_finds_every_result
    (cosine : vec → vec → Q) (bio : pystr) (posts : list pystr)
    (personalities : list Persona) (personalities_vectors : list vec)
    (embedding_model : SentenceTransformer) (zero_shot : Pipeline)
    (alpha beta : Q) (top_k : Z) (weight_bio : Q) (res : list ScoreResult) :
  compute_scores cosine bio posts personalities personalities_vectors
    embedding_model zero_shot alpha beta top_k weight_bio = Ok res →
  ∃ cards,
    display_personas res personalities = Done cards ∧
    Forall2
      (λ r p, ∃ j,
         personalities !! j = Some p ∧ label p = score_label r ∧
         ∀ j' p', personalities !! j' = Some p' → (j' < j)%nat →
                  label p' ≠ score_label r)
      res cards.
Proof.
  intros Hin%compute_scores_labels_in_catalog.
  induction Hin as [|r res (p0 & Hp0 & Hl0) _ (cards & Hcards & HF)].
  - by exists [].
  - destruct (list_find_elem_of (λ p, label p = score_label r)
                personalities p0 Hp0 Hl0) as [[j p] Hfind].
    exists (p :: cards). split.
    + simpl. unfold next_persona. rewrite Hfind. simpl.
      unfold mbind, ui_result_bind, ui_bind. by rewrite Hcards.
    + constructor; [| done].
      apply list_find_Some in Hfind as (Hj & Hp & Hfirst).
      exists j. split_and!; [done | done |].
      intros j' p' Hj' Hlt. by apply (Hfirst j' p').
Qed.

Lemma display_personas_finds_every_result_witness :
  ∃ res,
    Demo.run (py "hiker") [] 2 = Ok res ∧
    ∃ cards,
      display_personas res Demo.personalities = Done cards ∧
      Forall2
        (λ r p, ∃ j,
           Demo.personalities !! j = Some p ∧ label p = score_label r ∧
           ∀ j' p', Demo.personalities !! j' = Some p' → (j' < j)%nat →
                    label p' ≠ score_label r)
        res cards.
Proof.
  eexists. split; [vm_compute; reflexivity |].
  apply (display_personas_finds_every_result Demo.cosine (py "hiker") []
           Demo.personalities Demo.personalities_vectors Demo.model
           Demo.zero_shot ALPHA_DEFAULT BETA_DEFAULT 2 weight_bio_default).
  vm_compute. reflexivity.
Defined.

(** ** The order of the result *)

Lemma StronglySorted_zip_with {A B C} (R : relation A) (R' : relation C)
    (g : A → B → C) (l : list A) (k : list B) :
  (∀ a a' b b', R a a' → R' (g a b) (g a' b')) →
  StronglySorted R l → StronglySorted R' (zip_with g l k).
Proof.
  intros Hg Hl. revert k.
  induction Hl as [|a l Hl IH Ha]; intros [|b k]; simpl; try constructor.
  - apply IH.
  - clear -Hg Ha. revert k. induction Ha as [|a' l Haa' _ IH]; intros [|b' k];
      simpl; constructor; [by apply Hg | apply IH].
Qed.

Lemma StronglySorted_impl {A} (R R' : relation A) (l : list A) :
  (∀ a b, R a b → R' a b) → StronglySorted R l → StronglySorted R' l.
Proof.
  intros HR. induction 1 as [|a l _ IH Ha]; constructor; [done |].
  eapply Forall_impl; [exact Ha | apply HR].
Qed.

(** X21.  The returned list is ordered by [zero_shot_score], highest first,
    and entries of equal [zero_shot_score] by [embed_score], highest first:
    of two entries, the later one has a lower [zero_shot_score], or the
    same one and an [embed_score] that is not higher. *)
Theorem compute_scores_ties_by_embed_score
    (cosine : vec → vec → Q) (bio : pystr) (posts : list pystr)
    (personalities : list Persona) (personalities_vectors : list vec)
    (embedding_model : SentenceTransformer) (zero_shot : Pipeline)
    (alpha beta : Q) (top_k : Z) (weight_bio : Q) (res : list ScoreResult) :
  compute_scores cosine bio posts personalities personalities_vectors
    embedding_model zero_shot alpha beta top_k weight_bio = Ok res →
  StronglySorted
    (λ a b,
       zero_shot_score b < zero_shot_score a
       ∨ (zero_shot_score b == zero_shot_score a
          ∧ embed_score b <= embed_score a))
    res.
Proof.
  intros (labels & Hl & ->)%compute_scores_Ok. unfold score_rows, sorted.
  set (sims := similarities _ _ _ _ _ _).
  set (rows := zip_with _ (shortlist sims top_k) labels).
  assert (Hrows : StronglySorted (λ a b, embed_score b <= embed_score a) rows).
  { apply (StronglySorted_zip_with
             (flip (key_then (λ i, sims !!! i) lt))).
    - intros i j l l' Hij. simpl. apply round_mono.
      destruct Hij as [Hlt | [Heq _]]; [by apply Qlt_le_weak |].
      rewrite Heq. apply Qle_refl.
    - destruct (shortlist_prefix sims top_k) as [rest Hrest].
      pose proof (ranking_sorted sims) as Hs. rewrite Hrest in Hs.
      by apply StronglySorted_app_1_l in Hs. }
  apply (StronglySorted_reverse (flip _)) in Hrows.
  apply (sort_asc_key_then zero_shot_score) in Hrows.
  - apply StronglySorted_reverse in Hrows.
    eapply StronglySorted_impl; [| exact Hrows].
    intros a b [Hlt | [Heq Hb]]; [by left | by right].
  - intros a b c Hab Hbc. unfold flip in *. by apply Qle_trans with (embed_score b).
Qed.

Lemma compute_scores_ties_by_embed_score_witness :
  ∃ res,
    Demo.run (py "hiker") [] 3 = Ok res ∧
    StronglySorted
      (λ a b,
         zero_shot_score b < zero_shot_score a
         ∨ (zero_shot_score b == zero_shot_score a
            ∧ embed_score b <= embed_score a))
      res.
Proof.
  eexists. split; [vm_compute; reflexivity |].
  apply (compute_scores_ties_by_embed_score Demo.cosine (py "hiker") []
           Demo.personalities Demo.personalities_vectors Demo.model
           Demo.zero_shot ALPHA_DEFAULT BETA_DEFAULT 3 weight_bio_default).
  vm_compute. reflexivity.
Defined.

Lemma tokens_from_join (b : bool) (s t : pystr) :
  tokens_from b (s ++ py " " ++ t)
    = (tokens_from b s + tokens_from true t)%nat.
Proof.
  revert b. induction s as [|c s IH]; intros b.
  - done.
  - cbn [app tokens_from]. destruct (is_space c); rewrite IH; lia.
Qed.

(** X22.  The text that [recommend_products] encodes, the posts joined by
    single spaces, has exactly the words that [post_style_insights] counts:
    splitting the joined text gives as many tokens as the posts give one by
    one. *)
Theorem joined_posts_word_count (posts : list pystr) :
  length (split (join (py " ") posts))
    = sum (map (λ p, length (split p)) posts).
Proof.
  rewrite length_split.
  induction posts as [|p posts IH]; [done |].
  destruct posts as [|q posts].
  - cbn [join map sum foldr]. rewrite length_split. lia.
  - change (join (py " ") (p :: q :: posts))
      with (p ++ py " " ++ join (py " ") (q :: posts)).
    unfold whitespace_tokens in *. rewrite tokens_from_join, IH.
    cbn [map sum foldr]. by rewrite (length_split p).
Qed.


(** * Properties that hold whatever the library calls compute *)

Lemma py_bind_Returned {A B} (a : A) (k : A → Py.outcome B) :
  Py.Returned a ≫= k = k a.
Proof. done. Qed.

Ltac py_step :=
  match goal with
  | |- context [Py.Returned ?a ≫= ?k] =>
      change (Py.Returned a ≫= k) with (k a); cbv beta
  end.

Lemma py_for_each_Returned {A B} (f : A → Py.outcome B) (l : list A)
    (ys : list B) :
  Py.for_each f l = Py.Returned ys ↔
  Forall2 (λ x y, f x = Py.Returned y) l ys.
Proof.
  revert ys. induction l as [|x l IH]; intros ys; simpl.
  - split; [intros [= <-]; constructor | by inversion 1].
  - unfold mbind, Py.outcome_bind, Py.bind. split.
    + destruct (f x) as [y|] eqn:Hx; [| done].
      destruct (Py.for_each f l) as [ys'|] eqn:Hl; [| done].
      intros [= <-]. constructor; [done | by apply IH].
    + inversion 1 as [|? y ? ys' Hx Hl]; subst. rewrite Hx.
      apply IH in Hl. by rewrite Hl.
Qed.

Lemma py_labels_Returned (personalities : list Persona) (idxs : list nat)
    (labels : list pystr) :
  Py.for_each (λ i, p ← Py.index personalities i; Py.Returned (label p)) idxs
    = Py.Returned labels ↔
  Forall2 (λ i l, label <$> personalities !! i = Some l) idxs labels.
Proof.
  rewrite py_for_each_Returned.
  split; intros H; (eapply Forall2_impl; [exact H |]); intros i l;
    unfold Py.index, mbind, Py.outcome_bind, Py.bind;
    destruct (personalities !! i); simpl; congruence.
Qed.

Lemma py_rows_Returned (L : Py.Library) (alpha beta : Q)
    (zss : gmap pystr Q) (personalities : list Persona) (sims : list Q)
    (idxs : list nat) (labels : list pystr) (rows : list ScoreResult) :
  Forall2 (λ i l, label <$> personalities !! i = Some l) idxs labels →
  (Py.for_each
     (λ '(i, label),
        sim ← Py.index sims i;
        Py.Returned (Py.score_entry L alpha beta zss sim label))
     (zip idxs labels) = Py.Returned rows ↔
   Forall2 (row_of L alpha beta zss personalities sims) idxs rows ∧
   map score_label rows = labels).
Proof.
  intros Hl. rewrite py_for_each_Returned. revert rows.
  induction Hl as [|i l idxs labels Hil _ IH]; intros rows; simpl.
  - split.
    + inversion 1. by split; [constructor |].
    + intros [HF _]. inversion HF. constructor.
  - split.
    + inversion 1 as [|? r ? rows' Hr Hrows]; subst.
      apply IH in Hrows as [HF Hlab].
      unfold Py.index, mbind, Py.outcome_bind, Py.bind in Hr.
      destruct (sims !! i) as [sim|] eqn:Hsim; [| done].
      injection Hr as <-. simpl. split; [| by rewrite Hlab].
      constructor; [| done]. by exists sim.
    + intros [HF Hlab]. inversion HF as [|? r ? rows' Hr HF']; subst.
      injection Hlab as Hl0 Hlab. constructor; [| apply IH; by split].
      destruct Hr as (sim & _ & Hsim & Hr).
      unfold Py.index, mbind, Py.outcome_bind, Py.bind. rewrite Hsim.
      f_equal. rewrite <- Hl0. symmetry. exact Hr.
Qed.

Section PyComputeScores.
Context (L : Py.Library).
Context (bio : pystr) (posts : list pystr).
Context (personalities : list Persona) (personalities_vectors : list vec).
Context (embedding_model : SentenceTransformer) (zero_shot : Pipeline).
Context (alpha beta : Q) (top_k : Z) (weight_bio : Q).

#[local] Abbreviation user_vector :=
  (embed_user_input bio posts embedding_model weight_bio).
#[local] Abbreviation sims :=
  (Py.similarities L bio posts personalities_vectors embedding_model
     weight_bio).
#[local] Abbreviation top_idxs := (Py.shortlist L sims top_k).

(** When and with what [compute_scores] returns. *)
Lemma py_compute_scores_Returned (res : list ScoreResult) :
  Py.compute_scores L bio posts personalities personalities_vectors
    embedding_model zero_shot alpha beta top_k weight_bio = Py.Returned res ↔
  Py.well_shaped [user_vector] personalities_vectors = true ∧
  ∃ rows,
    rows ≠ [] ∧
    Forall2
      (row_of L alpha beta
         (zero_shot_scores_for zero_shot bio posts (map score_label rows))
         personalities sims)
      top_idxs rows ∧
    res = sorted zero_shot_score rows true.
Proof.
  unfold Py.compute_scores, Py.cosine_similarity. cbv zeta.
  destruct (Py.well_shaped _ _); [| split; [done | by intros [? _]]].
  cbv match. py_step.
  change (Py.index _ 0) with (Py.Returned sims).
  py_step.
  pose proof (py_labels_Returned personalities top_idxs) as Hlabels.
  destruct (Py.for_each (λ i, p ← Py.index personalities i;
                              Py.Returned (label p)) top_idxs)
    as [labels|] eqn:Hl.
  - py_step.
    assert (HF : Forall2 (λ i l, label <$> personalities !! i = Some l)
                   top_idxs labels) by (by apply Hlabels).
    pose proof (py_rows_Returned L alpha beta
                  (zero_shot_scores_for zero_shot bio posts labels)
                  personalities sims top_idxs labels) as Hrows.
    unfold Py.classify. destruct labels as [|l0 labels].
    + split; [done |]. intros (_ & rows & Hne & Hr & _).
      apply Forall2_length in HF. apply Forall2_length in Hr.
      destruct rows; [done | simpl in *; lia].
    + py_step.
      fold (zero_shot_scores_for zero_shot bio posts (l0 :: labels)).
      destruct (Py.for_each _ (zip top_idxs (l0 :: labels)))
        as [rows|] eqn:Hrs.
      * py_step.
        destruct (proj1 (Hrows rows HF) eq_refl) as [Hr Hlab]. split.
        -- intros [= <-]. split; [done |]. exists rows.
           rewrite Hlab. split_and!; [by destruct rows | done | done].
        -- intros (_ & rows' & _ & Hr' & ->). do 2 f_equal.
           assert (Py.Returned (l0 :: labels)
                   = Py.Returned (map score_label rows')) as [= Hlab'].
           { apply Hlabels.
             eapply Forall2_fmap_r, Forall2_impl; [exact Hr' |].
             by intros i r (sim & ? & _). }
           rewrite <- Hlab' in Hr'.
           assert (Py.Returned rows = Py.Returned rows') as [= ->]; [| done].
           by apply (Hrows rows' HF).
      * split; [done |]. intros (_ & rows' & _ & Hr' & _).
        assert (Py.Returned (l0 :: labels)
                = Py.Returned (map score_label rows')) as [= Hlab'].
        { apply Hlabels.
          eapply Forall2_fmap_r, Forall2_impl; [exact Hr' |].
          by intros i r (sim & ? & _). }
        rewrite <- Hlab' in Hr'.
        assert (Py.Raised e = Py.Returned rows'); [| done].
        by apply (Hrows rows' HF).
  - split; [done |]. intros (_ & rows & _ & Hr & _).
    assert (Py.Raised e = Py.Returned (map score_label rows)); [| done].
    apply Hlabels. eapply Forall2_fmap_r, Forall2_impl; [exact Hr |].
    by intros i r (sim & ? & _).
Qed.
End PyComputeScores.

Section PyShortlist.
Context (L : Py.Library) (Hsort : Py.argsort_sorts L).

Lemma py_shortlist_prefix (a : list Q) (k : Z) :
  ∃ rest, reverse (Py.argsort L a) = Py.shortlist L a k ++ rest.
Proof. apply slice_to_prefix. Qed.

Lemma py_shortlist_lt (a : list Q) (k : Z) (i : nat) :
  i ∈ Py.shortlist L a k → (i < length a)%nat.
Proof.
  destruct (py_shortlist_prefix a k) as [rest Hr]. intros Hi.
  assert (Hin : i ∈ reverse (Py.argsort L a)) by (rewrite Hr; set_solver).
  rewrite elem_of_reverse, (proj1 (Hsort a)) in Hin.
  apply elem_of_seq in Hin. lia.
Qed.

Lemma py_shortlist_NoDup (a : list Q) (k : Z) : NoDup (Py.shortlist L a k).
Proof.
  destruct (py_shortlist_prefix a k) as [rest Hr].
  assert (Hnd : NoDup (reverse (Py.argsort L a))).
  { rewrite reverse_Permutation, (proj1 (Hsort a)). apply NoDup_seq. }
  rewrite Hr in Hnd. by apply NoDup_app in Hnd as [? _].
Qed.

Lemma py_length_shortlist (a : list Q) (k : Z) :
  length (Py.shortlist L a k) =
    if (0 <=? k)%Z then Nat.min (Z.to_nat k) (length a)
    else (length a - Z.to_nat (- k))%nat.
Proof.
  unfold Py.shortlist. rewrite length_slice_to, length_reverse.
  assert (Hl : length (Py.argsort L a) = length a).
  { by rewrite (proj1 (Hsort a)), length_seq. }
  by rewrite Hl.
Qed.

(** No index left out has a higher value than a shortlisted one. *)
Lemma py_shortlist_highest (a : list Q) (k : Z) (i j : nat) :
  i ∈ Py.shortlist L a k → (j < length a)%nat → j ∉ Py.shortlist L a k →
  a !!! j <= a !!! i.
Proof.
  intros Hi Hj Hnj. destruct (py_shortlist_prefix a k) as [rest Hr].
  assert (Hin : j ∈ reverse (Py.argsort L a)).
  { rewrite elem_of_reverse, (proj1 (Hsort a)). apply elem_of_seq. lia. }
  pose proof (StronglySorted_reverse _ _ (proj2 (Hsort a))) as Hs.
  rewrite Hr in Hs, Hin.
  apply elem_of_app in Hin as [? | Hin]; [done |].
  apply (StronglySorted_app_1_elem_of _ _ _ i j Hs Hi Hin).
Qed.
End PyShortlist.

Section PyReturns.
Context (L : Py.Library) (Hsort : Py.argsort_sorts L).
Context (bio : pystr) (posts : list pystr).
Context (personalities : list Persona) (personalities_vectors : list vec).
Context (embedding_model : SentenceTransformer) (zero_shot : Pipeline).
Context (alpha beta : Q) (top_k : Z) (weight_bio : Q).

(** The call returns when sklearn accepts the arrays, every vector has a
    persona and the shortlist is not empty. *)
Lemma py_compute_scores_returns :
  Py.well_shaped [embed_user_input bio posts embedding_model weight_bio]
    personalities_vectors = true →
  (length personalities_vectors ≤ length personalities)%nat →
  (1 ≤ top_k)%Z →
  ∃ res,
    Py.compute_scores L bio posts personalities personalities_vectors
      embedding_model zero_shot alpha beta top_k weight_bio
    = Py.Returned res.
Proof.
  intros Hws Hlen Hk.
  set (sims := Py.similarities L bio posts personalities_vectors
                 embedding_model weight_bio).
  set (top := Py.shortlist L sims top_k).
  assert (Hsims : length sims = length personalities_vectors).
  { unfold sims, Py.similarities. by rewrite length_map. }
  assert (Hall : Forall (λ i, (i < length sims)%nat) top).
  { apply Forall_forall. intros i Hi. by apply (py_shortlist_lt L Hsort) in Hi. }
  assert (Hl : ∃ labels,
    Forall2 (λ i l, label <$> personalities !! i = Some l) top labels).
  { clear -Hall Hsims Hlen. induction Hall as [|i idxs Hi _ [labels IH]];
      [by exists [] |].
    destruct (lookup_lt_is_Some_2 personalities i) as [p Hp]; [lia |].
    exists (label p :: labels). constructor; [by rewrite Hp | done]. }
  destruct Hl as [labels Hl].
  set (zss := zero_shot_scores_for zero_shot bio posts labels).
  set (rows := zip_with (λ i l, Py.score_entry L alpha beta zss (sims !!! i) l)
                 top labels).
  assert (Hlab : map score_label rows = labels).
  { apply zip_with_labels; [done | by apply Forall2_length in Hl]. }
  exists (sorted zero_shot_score rows true).
  apply py_compute_scores_Returned. split; [done |]. exists rows.
  split_and!; [| | done].
  - assert (Hn : length rows = length top).
    { unfold rows. rewrite length_zip_with.
      apply Forall2_length in Hl. lia. }
    assert (Ht : length top ≠ 0%nat).
    { unfold top. rewrite (py_length_shortlist L Hsort), Hsims.
      destruct (Z.leb_spec 0 top_k); [| lia].
      destruct personalities_vectors; [done | simpl; lia]. }
    destruct rows; [simpl in Hn; lia | done].
  - rewrite Hlab. fold zss. fold sims. fold top. unfold rows.
    clearbody zss. clear -Hl Hall. induction Hl as [|i l idxs labels Hil _ IH]; simpl;
      [constructor |].
    apply Forall_cons in Hall as [Hi Hall]. constructor; [| by apply IH].
    exists (sims !!! i). split_and!; [done | | done].
    by apply list_lookup_lookup_total_lt.
Qed.
End PyReturns.

Lemma exact_library_argsort_sorts : Py.argsort_sorts exact_library.
Proof.
  intros a. split; [apply argsort_perm |].
  apply (sort_asc_sorted (λ i, a !!! i)).
Qed.

Lemma exact_library_ties_reversed_argsort_sorts :
  Py.argsort_sorts exact_library_ties_reversed.
Proof.
  intros a. split.
  - simpl. by rewrite sort_asc_perm, reverse_Permutation.
  - apply (sort_asc_sorted (λ i, a !!! i)).
Qed.

Lemma row_of_elem (L : Py.Library) (alpha beta : Q) (zss : gmap pystr Q)
    (personalities : list Persona) (sims : list Q) (idxs : list nat)
    (rows : list ScoreResult) (r : ScoreResult) :
  Forall2 (row_of L alpha beta zss personalities sims) idxs rows →
  r ∈ rows →
  ∃ i, i ∈ idxs ∧ row_of L alpha beta zss personalities sims i r.
Proof.
  intros HF [n Hn]%list_elem_of_lookup.
  destruct (Forall2_lookup_r _ _ _ _ _ HF Hn) as (i & Hi & Hr).
  exists i. split; [by apply list_elem_of_lookup_2 with n | done].
Qed.

(** C1.  Whenever [compute_scores] returns, whatever the library calls
    compute and whatever order [np.argsort] gives to equal similarities:
    the list is in descending order of [zero_shot_score], and entries of
    equal [zero_shot_score] stand in shortlist order.  [rows] is the list of
    entries along the shortlist of the call (entry [n] carries the label of
    the [n]-th shortlisted index), and for every score value the entries
    with that score are the same sequence in the result as in [rows]. *)
Theorem compute_scores_sorted_by_zero_shot_score
    (L : Py.Library) (bio : pystr) (posts : list pystr)
    (personalities : list Persona) (personalities_vectors : list vec)
    (embedding_model : SentenceTransformer) (zero_shot : Pipeline)
    (alpha beta : Q) (top_k : Z) (weight_bio : Q) (res : list ScoreResult) :
  Py.compute_scores L bio posts personalities personalities_vectors
    embedding_model zero_shot alpha beta top_k weight_bio = Py.Returned res →
  StronglySorted (λ a b, zero_shot_score b <= zero_shot_score a) res ∧
  ∃ rows,
    Forall2 (λ i r, label <$> personalities !! i = Some (score_label r))
      (Py.shortlist L
         (Py.similarities L bio posts personalities_vectors embedding_model
            weight_bio) top_k)
      rows ∧
    res ≡ₚ rows ∧
    ∀ z, filter (same_key zero_shot_score z) res
         = filter (same_key zero_shot_score z) rows.
Proof.
  intros (_ & rows & _ & Hrows & ->)%py_compute_scores_Returned. split.
  - apply sorted_descending.
  - exists rows. split_and!.
    + eapply Forall2_impl; [exact Hrows |]. by intros i r (sim & ? & _).
    + apply sorted_perm.
    + intros z. apply sorted_stable.
Qed.

Lemma compute_scores_sorted_by_zero_shot_score_witness :
  ∃ res,
    py_run exact_library_ties_reversed (py "hiker") [] 3 = Py.Returned res ∧
    map score_label res = [py "Foodie"; py "Explorer"; py "Wanderer"] ∧
    StronglySorted (λ a b, zero_shot_score b <= zero_shot_score a) res ∧
    ∃ rows,
      Forall2
        (λ i r, label <$> Demo.personalities !! i = Some (score_label r))
        (Py.shortlist exact_library_ties_reversed
           (Py.similarities exact_library_ties_reversed (py "hiker") []
              Demo.personalities_vectors Demo.model weight_bio_default) 3)
        rows ∧
      res ≡ₚ rows ∧
      ∀ z, filter (same_key zero_shot_score z) res
           = filter (same_key zero_shot_score z) rows.
Proof.
  eexists. split; [vm_compute; reflexivity |].
  split; [vm_compute; reflexivity |].
  apply (compute_scores_sorted_by_zero_shot_score exact_library_ties_reversed
           (py "hiker") [] Demo.personalities Demo.personalities_vectors
           Demo.model Demo.zero_shot ALPHA_DEFAULT BETA_DEFAULT 3
           weight_bio_default).
  vm_compute. reflexivity.
Defined.

(** C2, as the code has it.  Every returned entry belongs to a shortlisted
    index [i] of the call; with [sim] the raw similarity of [i] and [zsc]
    the raw classifier score of its label (0.0 when the classifier gave
    none), [embed_score] is Python's [round(sim, 3)], [zero_shot_score] is
    Python's [round(zsc, 3)], and [combined_score] is NumPy's round, to 3
    places, of the float [alpha * sim + beta * zsc]: the fusion takes the
    raw values and is rounded once; the rounded scores do not enter it. *)
Theorem compute_scores_fusion_of_raw_scores
    (L : Py.Library) (bio : pystr) (posts : list pystr)
    (personalities : list Persona) (personalities_vectors : list vec)
    (embedding_model : SentenceTransformer) (zero_shot : Pipeline)
    (alpha beta : Q) (top_k : Z) (weight_bio : Q) (res : list ScoreResult) :
  Py.compute_scores L bio posts personalities personalities_vectors
    embedding_model zero_shot alpha beta top_k weight_bio = Py.Returned res →
  let sims :=
    Py.similarities L bio posts personalities_vectors embedding_model
      weight_bio in
  ∃ labels,
    Forall2 (λ i l, label <$> personalities !! i = Some l)
      (Py.shortlist L sims top_k) labels ∧
    let zs := zero_shot (bio ++ py " " ++ join (py " ") posts) labels in
    let zero_shot_scores := dict (zip (zs_labels zs) (zs_scores zs)) in
    Forall
      (λ r, ∃ i sim zsc,
         i ∈ Py.shortlist L sims top_k ∧
         label <$> personalities !! i = Some (score_label r) ∧
         sims !! i = Some sim ∧
         zsc = get zero_shot_scores (score_label r) 0 ∧
         embed_score r = Py.fround L sim 3 ∧
         zero_shot_score r = Py.fround L zsc 3 ∧
         combined_score r
           = Py.np_round L
               (Py.fadd L (Py.fmul L alpha sim) (Py.fmul L beta zsc)) 3)
      res.
Proof.
  intros (_ & rows & _ & Hrows & ->)%py_compute_scores_Returned sims.
  exists (map score_label rows). split.
  - eapply Forall2_fmap_r, Forall2_impl; [exact Hrows |].
    by intros i r (sim & ? & _).
  - intros zs zss. rewrite sorted_perm. apply Forall_forall. intros r Hr.
    destruct (row_of_elem _ _ _ _ _ _ _ _ r Hrows Hr)
      as (i & Hi & sim & Hlab & Hsim & Hrow).
    exists i, sim, (get zss (score_label r) 0).
    split_and!; [done.. | | |]; by rewrite Hrow at 1.
Qed.

Lemma compute_scores_fusion_of_raw_scores_witness :
  ∃ res,
    py_run exact_library (py "hiker") [] 3 = Py.Returned res ∧
    let sims :=
      Py.similarities exact_library (py "hiker") [] Demo.personalities_vectors
        Demo.model weight_bio_default in
    ∃ labels,
      Forall2 (λ i l, label <$> Demo.personalities !! i = Some l)
        (Py.shortlist exact_library sims 3) labels ∧
      let zs :=
        Demo.zero_shot (py "hiker" ++ py " " ++ join (py " ") []) labels in
      let zero_shot_scores := dict (zip (zs_labels zs) (zs_scores zs)) in
      Forall
        (λ r, ∃ i sim zsc,
           i ∈ Py.shortlist exact_library sims 3 ∧
           label <$> Demo.personalities !! i = Some (score_label r) ∧
           sims !! i = Some sim ∧
           zsc = get zero_shot_scores (score_label r) 0 ∧
           embed_score r = Py.fround exact_library sim 3 ∧
           zero_shot_score r = Py.fround exact_library zsc 3 ∧
           combined_score r
             = Py.np_round exact_library
                 (Py.fadd exact_library (Py.fmul exact_library ALPHA_DEFAULT sim)
                    (Py.fmul exact_library BETA_DEFAULT zsc)) 3)
        res.
Proof.
  eexists. split; [vm_compute; reflexivity |].
  apply (compute_scores_fusion_of_raw_scores exact_library (py "hiker") []
           Demo.personalities Demo.personalities_vectors Demo.model
           Demo.zero_shot ALPHA_DEFAULT BETA_DEFAULT 3 weight_bio_default).
  vm_compute. reflexivity.
Defined.

(** C4, as the code has it.  With an [np.argsort] that sorts, the returned
    personas are those of the shortlisted indices; the shortlist has no
    repeats and, for a [top_k] that is not negative, [min(top_k, n)]
    indices; and no persona left out has a higher similarity than a
    shortlisted one.  Which of several personas of equal similarity is
    shortlisted is left to [np.argsort]: the code fixes no order among
    them, in particular not the catalog order. *)
Theorem compute_scores_shortlist_highest_similarity
    (L : Py.Library) (bio : pystr) (posts : list pystr)
    (personalities : list Persona) (personalities_vectors : list vec)
    (embedding_model : SentenceTransformer) (zero_shot : Pipeline)
    (alpha beta : Q) (top_k : Z) (weight_bio : Q) (res : list ScoreResult) :
  Py.argsort_sorts L →
  Py.compute_scores L bio posts personalities personalities_vectors
    embedding_model zero_shot alpha beta top_k weight_bio = Py.Returned res →
  let sims :=
    Py.similarities L bio posts personalities_vectors embedding_model
      weight_bio in
  let top_idxs := Py.shortlist L sims top_k in
  (∃ labels,
     Forall2 (λ i l, label <$> personalities !! i = Some l) top_idxs labels ∧
     map score_label res ≡ₚ labels) ∧
  NoDup top_idxs ∧
  ((0 ≤ top_k)%Z →
   length top_idxs = Nat.min (Z.to_nat top_k) (length personalities_vectors)) ∧
  ∀ i j,
    i ∈ top_idxs → (j < length personalities_vectors)%nat → j ∉ top_idxs →
    sims !!! j <= sims !!! i.
Proof.
  intros Hsort (_ & rows & _ & Hrows & ->)%py_compute_scores_Returned
    sims top_idxs.
  assert (Hlen : length sims = length personalities_vectors).
  { unfold sims, Py.similarities. apply length_map. }
  split_and!.
  - exists (map score_label rows). split; [| by rewrite sorted_perm].
    eapply Forall2_fmap_r, Forall2_impl; [exact Hrows |].
    by intros i r (sim & ? & _).
  - by apply py_shortlist_NoDup.
  - intros Hk. unfold top_idxs. rewrite (py_length_shortlist L Hsort), Hlen.
    destruct (Z.leb_spec 0 top_k); [done | lia].
  - intros i j Hi Hj Hnj.
    apply (py_shortlist_highest L Hsort sims top_k); [done | | done].
    by rewrite Hlen.
Qed.

Lemma compute_scores_shortlist_highest_similarity_witness :
  Py.argsort_sorts exact_library ∧
  ∃ res,
    py_run exact_library (py "hiker") [] 2 = Py.Returned res ∧
    let sims :=
      Py.similarities exact_library (py "hiker") [] Demo.personalities_vectors
        Demo.model weight_bio_default in
    let top_idxs := Py.shortlist exact_library sims 2 in
    (∃ labels,
       Forall2 (λ i l, label <$> Demo.personalities !! i = Some l)
         top_idxs labels ∧
       map score_label res ≡ₚ labels) ∧
    NoDup top_idxs ∧
    ((0 ≤ 2)%Z →
     length top_idxs
       = Nat.min (Z.to_nat 2) (length Demo.personalities_vectors)) ∧
    ∀ i j,
      i ∈ top_idxs → (j < length Demo.personalities_vectors)%nat →
      j ∉ top_idxs → sims !!! j <= sims !!! i.
Proof.
  split; [exact exact_library_argsort_sorts |].
  eexists. split; [vm_compute; reflexivity |].
  apply (compute_scores_shortlist_highest_similarity exact_library
           (py "hiker") [] Demo.personalities Demo.personalities_vectors
           Demo.model Demo.zero_shot ALPHA_DEFAULT BETA_DEFAULT 2
           weight_bio_default);
    [exact exact_library_argsort_sorts | vm_compute; reflexivity].
Defined.

(** C4 fails as stated.  The first two personas of the catalog have the
    same similarity 0.6 to the user vector and the third has 0.8.  Both
    libraries below have an [np.argsort] that sorts; with [top_k = 2] the
    one shortlists the third and the SECOND persona, the other the third
    and the first: the code does not settle ties by catalog order. *)
Lemma compute_scores_ties_not_by_catalog_order :
  map label Demo.personalities
    = [py "Explorer"; py "Wanderer"; py "Foodie"] ∧
  Forall2 Qeq
    (Py.similarities exact_library (py "hiker") [] Demo.personalities_vectors
       Demo.model weight_bio_default)
    [3 # 5; 3 # 5; 4 # 5] ∧
  Py.argsort_sorts exact_library ∧
  Py.argsort_sorts exact_library_ties_reversed ∧
  (∃ res,
     py_run exact_library (py "hiker") [] 2 = Py.Returned res ∧
     map score_label res = [py "Foodie"; py "Wanderer"]) ∧
  (∃ res,
     py_run exact_library_ties_reversed (py "hiker") [] 2 = Py.Returned res ∧
     map score_label res = [py "Foodie"; py "Explorer"]).
Proof.
  split_and!.
  - vm_compute; reflexivity.
  - repeat (constructor; [vm_compute; reflexivity |]). constructor.
  - exact exact_library_argsort_sorts.
  - exact exact_library_ties_reversed_argsort_sorts.
  - eexists. split; vm_compute; reflexivity.
  - eexists. split; vm_compute; reflexivity.
Qed.

Lemma well_shaped_uniform (D : nat) (u : vec) (Y : list vec) :
  (1 ≤ D)%nat → Y ≠ [] → length u = D → Forall (λ r, length r = D) Y →
  Py.well_shaped [u] Y = true.
Proof.
  intros HD HY Hu HYs. destruct Y as [|y Y]; [done |].
  apply Forall_cons in HYs as [Hy HYs]. unfold Py.well_shaped.
  apply andb_true_intro. split; [apply andb_true_intro; split |].
  - apply Nat.ltb_lt. lia.
  - simpl. rewrite Hu, Hy, Nat.eqb_refl. done.
  - apply forallb_forall. intros r Hr. apply Nat.eqb_eq.
    rewrite Forall_forall in HYs.
    apply in_inv in Hr as [<- | Hr]; [done |].
    rewrite Hy. apply HYs. by apply list_elem_of_In.
Qed.

(** C5, as the code has it.  An empty bio with no posts is encoded like
    any other input: the one text is the empty string and the user vector
    is [weight_bio] times its embedding.  With arrays sklearn accepts, a
    persona for every vector and [top_k >= 1], the call returns a score
    list: it does not fail for want of text, and no check for missing text
    exists. *)
Theorem compute_scores_encodes_empty_input
    (L : Py.Library)
    (personalities : list Persona) (personalities_vectors : list vec)
    (embedding_model : SentenceTransformer) (zero_shot : Pipeline)
    (alpha beta : Q) (top_k : Z) (weight_bio : Q) :
  Py.argsort_sorts L →
  Py.well_shaped [map (Qmult weight_bio) (embedding_model [])]
    personalities_vectors = true →
  (length personalities_vectors ≤ length personalities)%nat →
  (1 ≤ top_k)%Z →
  Forall2 Qeq (embed_user_input [] [] embedding_model weight_bio)
    (map (Qmult weight_bio) (embedding_model [])) ∧
  ∃ res,
    Py.compute_scores L [] [] personalities personalities_vectors
      embedding_model zero_shot alpha beta top_k weight_bio
    = Py.Returned res.
Proof.
  intros Hsort Hws Hlen Hk. split; [apply mean_axis0_single |].
  apply py_compute_scores_returns; [done | | done | done].
  revert Hws. unfold Py.well_shaped.
  destruct personalities_vectors as [|y Y]; [done |].
  assert (Hl : length (embed_user_input [] [] embedding_model weight_bio)
               = length (map (Qmult weight_bio) (embedding_model []))).
  { apply (Forall2_length _ _ _ (mean_axis0_single _)). }
  cbn [forallb]. by rewrite Hl.
Qed.

Lemma compute_scores_encodes_empty_input_witness :
  Py.argsort_sorts exact_library ∧
  Py.well_shaped [map (Qmult weight_bio_default) (Demo.model [])]
    Demo.personalities_vectors = true ∧
  (length Demo.personalities_vectors ≤ length Demo.personalities)%nat ∧
  (1 ≤ 1)%Z ∧
  Forall2 Qeq (embed_user_input [] [] Demo.model weight_bio_default)
    (map (Qmult weight_bio_default) (Demo.model [])) ∧
  ∃ res, py_run exact_library [] [] 1 = Py.Returned res.
Proof.
  split; [exact exact_library_argsort_sorts |].
  split; [vm_compute; reflexivity |].
  split; [vm_compute; lia |]. split; [lia |].
  apply (compute_scores_encodes_empty_input exact_library Demo.personalities
           Demo.personalities_vectors Demo.model Demo.zero_shot ALPHA_DEFAULT
           BETA_DEFAULT 1 weight_bio_default);
    [exact exact_library_argsort_sorts | vm_compute; reflexivity
    | vm_compute; lia | lia].
Defined.

(** C6, as the code has it.  For a catalog that is not empty, with one
    vector of the encoder's dimension per persona, and for every
    [top_k >= 1], [compute_scores] returns exactly
    [min(top_k, number of personas)] entries (a [top_k] above the number of
    personas is cut by the slice, nothing is raised), every returned label
    is a label of the catalog, and, when the classifier's scores lie in
    [0,1] and Python's [round] keeps a number of [0,1] there, every
    [zero_shot_score] lies in [0,1]. *)
Theorem compute_scores_size_labels_bounds
    (L : Py.Library) (bio : pystr) (posts : list pystr)
    (personalities : list Persona) (personalities_vectors : list vec)
    (embedding_model : SentenceTransformer) (zero_shot : Pipeline)
    (alpha beta : Q) (top_k : Z) (weight_bio : Q) :
  Py.argsort_sorts L →
  (∀ x, 0 <= x <= 1 → 0 <= Py.fround L x 3 <= 1) →
  (∀ text candidates,
     Forall (λ s, 0 <= s <= 1) (zs_scores (zero_shot text candidates))) →
  Py.well_shaped [embed_user_input bio posts embedding_model weight_bio]
    personalities_vectors = true →
  length personalities_vectors = length personalities →
  (1 ≤ top_k)%Z →
  ∃ res,
    Py.compute_scores L bio posts personalities personalities_vectors
      embedding_model zero_shot alpha beta top_k weight_bio
    = Py.Returned res ∧
    length res = Nat.min (Z.to_nat top_k) (length personalities) ∧
    Forall (λ r, score_label r ∈ map label personalities) res ∧
    Forall (λ r, 0 <= zero_shot_score r <= 1) res.
Proof.
  intros Hsort Hround Hzs Hws Hlen Hk.
  destruct (py_compute_scores_returns L Hsort bio posts personalities
              personalities_vectors embedding_model zero_shot alpha beta
              top_k weight_bio Hws ltac:(lia) Hk) as [res Hres].
  exists res. split; [done |].
  apply py_compute_scores_Returned in Hres as (_ & rows & _ & Hrows & ->).
  split_and!.
  - rewrite sorted_perm, <- (Forall2_length _ _ _ Hrows).
    rewrite (py_length_shortlist L Hsort).
    unfold Py.similarities. rewrite length_map, Hlen.
    destruct (Z.leb_spec 0 top_k); [done | lia].
  - rewrite sorted_perm. apply Forall_forall. intros r Hr.
    destruct (row_of_elem _ _ _ _ _ _ _ _ _ Hrows Hr)
      as (i & _ & sim & Hlab & _).
    destruct (personalities !! i) as [p|] eqn:Hp; [| done].
    injection Hlab as <-. apply list_elem_of_fmap. exists p. split; [done |].
    by eapply list_elem_of_lookup_2.
  - rewrite sorted_perm. apply Forall_forall. intros r Hr.
    destruct (row_of_elem _ _ _ _ _ _ _ _ _ Hrows Hr)
      as (i & _ & sim & _ & _ & ->).
    cbn [zero_shot_score Py.score_entry]. apply Hround.
    apply get_dict_zip_unit_interval, Hzs.
Qed.

Lemma compute_scores_size_labels_bounds_witness :
  ∃ res,
    py_run exact_library (py "hiker") [py "on the trail"] 5
    = Py.Returned res ∧
    length res = Nat.min (Z.to_nat 5) (length Demo.personalities) ∧
    Forall (λ r, score_label r ∈ map label Demo.personalities) res ∧
    Forall (λ r, 0 <= zero_shot_score r <= 1) res.
Proof.
  apply (compute_scores_size_labels_bounds exact_library (py "hiker")
           [py "on the trail"] Demo.personalities Demo.personalities_vectors
           Demo.model Demo.zero_shot ALPHA_DEFAULT BETA_DEFAULT 5
           weight_bio_default).
  - exact exact_library_argsort_sorts.
  - intros x Hx. by apply round_unit_interval.
  - intros text candidates. unfold Demo.zero_shot, zs_scores.
    apply Forall_fmap, Forall_forall. intros l _. unfold get. simpl.
    destruct (dict Demo.distribution !! l) as [v|] eqn:Hv; simpl; [| lra].
    apply dict_lookup in Hv.
    assert (Hall : Forall (λ kv, 0 <= kv.2 <= 1) Demo.distribution).
    { repeat constructor; simpl; lra. }
    rewrite Forall_forall in Hall. apply (Hall _ Hv).
  - vm_compute; reflexivity.
  - vm_compute; reflexivity.
  - lia.
Defined.

(** C6 fails as stated.  With an empty catalog and [top_k = 1] the call
    does not return [min(1, 0) = 0] entries: sklearn's [cosine_similarity]
    rejects the empty persona matrix and the call raises [ValueError]. *)
Lemma compute_scores_empty_catalog_raises :
  Py.compute_scores exact_library (py "hiker") [py "on the trail"] [] []
    Demo.model Demo.zero_shot ALPHA_DEFAULT BETA_DEFAULT 1 weight_bio_default
  = Py.Raised Py.ValueError.
Proof. vm_compute; reflexivity. Qed.

Lemma py_post_style_insights_cons (L : Py.Library) (is_emoji : pystr → bool)
    (p : pystr) (ps : list pystr) :
  let posts := p :: ps in
  let n := length posts in
  Py.post_style_insights L is_emoji posts
  = {[ "avg_post_length_chars" :=
         Py.fround L (Py.fdiv L (length (concat posts)) n) 1;
       "avg_post_length_words" :=
         Py.fround L (Py.fdiv L (sum_list_with whitespace_tokens posts) n) 1;
       "emoji_usage_percent" :=
         Py.fround L
           (Py.fdiv L (100 * length (filter (has_emoji is_emoji) posts)) n) 1;
       "avg_exclamations_per_post" :=
         Py.fround L (Py.fdiv L (count (concat posts) 33) n) 2 ]}.
Proof.
  intros posts n. unfold Py.post_style_insights. cbv iota zeta.
  fold posts. fold n.
  rewrite sum_lengths, posts_with_emoji_count, sum_counts, sum_map.
  rewrite insert_empty.
  assert (Hw : sum_list_with (λ q, length (split q)) posts
               = sum_list_with whitespace_tokens posts).
  { clear. induction posts as [|q qs IH]; simpl; [done |].
    by rewrite IH, length_split. }
  by rewrite Hw.
Qed.

(** C7.  On the empty list the result is the empty map.  On [n >= 1] posts
    it has exactly the four fields named below, each Python's [round] of
    Python's division by [n]: of the characters of all posts and of the
    whitespace-delimited tokens of all posts, to 1 place; of 100 times the
    number of posts with an emoji character, to 1 place; and of the
    occurrences of ['!'] in all posts, to 2 places. *)
Theorem post_style_insights_fields (L : Py.Library)
    (is_emoji : pystr → bool) :
  Py.post_style_insights L is_emoji [] = ∅ ∧
  ∀ (p : pystr) (ps : list pystr),
    let posts := p :: ps in
    let n := length posts in
    let m := Py.post_style_insights L is_emoji posts in
    dom m = {[ "avg_post_length_chars"; "avg_post_length_words";
               "emoji_usage_percent"; "avg_exclamations_per_post" ]} ∧
    size m = 4%nat ∧
    m !! "avg_post_length_chars"
      = Some (Py.fround L (Py.fdiv L (length (concat posts)) n) 1) ∧
    m !! "avg_post_length_words"
      = Some (Py.fround L
                (Py.fdiv L (sum_list_with whitespace_tokens posts) n) 1) ∧
    m !! "emoji_usage_percent"
      = Some (Py.fround L
                (Py.fdiv L
                   (100 * length (filter (has_emoji is_emoji) posts)) n) 1) ∧
    m !! "avg_exclamations_per_post"
      = Some (Py.fround L (Py.fdiv L (count (concat posts) 33) n) 2).
Proof.
  split; [done |]. intros p ps posts n m.
  unfold m, posts, n. rewrite py_post_style_insights_cons.
  split_and!.
  - rewrite !dom_insert_L, dom_singleton_L. set_solver.
  - repeat (rewrite map_size_insert_None; [| by simplify_map_eq]).
    by rewrite map_size_singleton.
  - by simplify_map_eq.
  - by simplify_map_eq.
  - by simplify_map_eq.
  - by simplify_map_eq.
Qed.

(** C10, as the code has it.  With no posts the user text is the empty
    string, which is encoded like any other text.  For an encoder of a fixed
    dimension of at least 1, the call returns, whatever the personas, the
    catalog and [top_k]: the first [top_k] of the recommendations for the
    catalog entries of the given personas, in persona order, each scored by
    NumPy's round, to 3 places, of the cosine similarity between the
    embedding of the empty string and the embedding of
    ["{product} - {category}"], in descending order of score. *)
Theorem recommend_products_without_posts (L : Py.Library)
    (top_personas : list pystr) (product_catalog : gmap pystr (list Product))
    (model : SentenceTransformer) (top_k : Z) (D : nat) :
  (1 ≤ D)%nat →
  (∀ text, length (model text) = D) →
  let candidates :=
    concat (map (λ persona, default [] (product_catalog !! persona))
                top_personas) in
  let ranked :=
    sorted score
      (map (λ p, {| rec_product := product p;
                    rec_category := category p;
                    score :=
                      Py.np_round L
                        (Py.cosine L (model [])
                           (model (product p ++ py " - " ++ category p))) 3 |})
           candidates)
      true in
  Py.recommend_products L [] top_personas product_catalog model top_k
  = Py.Returned (slice_to ranked top_k) ∧
  StronglySorted (λ a b, score b <= score a) (slice_to ranked top_k).
Proof.
  intros HD Hdim candidates ranked.
  split; [| apply StronglySorted_slice_to, sorted_descending].
  unfold Py.recommend_products.
  change (encode_text (Text (join (py " ") [])) model) with [model []].
  change (Py.index [model []] 0) with (Py.Returned (model [])).
  py_step. fold candidates.
  change (concat (map (λ persona, get product_catalog persona [])
                      top_personas)) with candidates.
  unfold ranked. generalize candidates. clear candidates ranked.
  intros [|c cs].
  { change (sorted score (map _ []) true) with (@nil Recommendation).
    destruct (slice_to_prefix (@nil Recommendation) top_k) as [rest Hr].
    symmetry in Hr. apply app_eq_nil in Hr as [Hr _]. by rewrite Hr. }
  set (products := c :: cs).
  cbv iota.
  set (texts := map (λ p, product p ++ py " - " ++ category p) products).
  assert (Hws : Py.well_shaped [model []] (encode_text (Texts texts) model)
                = true).
  { apply (well_shaped_uniform D); [exact HD | discriminate | apply Hdim |].
    unfold encode_text, model_encode. apply Forall_fmap, Forall_forall.
    intros t _. apply Hdim. }
  unfold Py.cosine_similarity. rewrite Hws.
  cbn [map]. py_step.
  change (Py.index [?row] 0) with (Py.Returned row).
  py_step. do 3 f_equal.
  unfold encode_text, model_encode, texts.
  rewrite !map_map.
  change (map ?f products) with (f <$> products).
  by rewrite zip_with_fmap_r, zip_with_diag.
Qed.

Lemma recommend_products_without_posts_witness :
  Py.recommend_products exact_library [] [py "Explorer"] Demo.product_catalog
    Demo.model 5
  = Py.Returned
      [ {| rec_product := py "Boots"; rec_category := py "Gear";
           score := 800 # 1000 |};
        {| rec_product := py "Trail Mix"; rec_category := py "Snacks";
           score := 600 # 1000 |} ].
Proof.
  assert (Hdim : ∀ text, length (Demo.model text) = 2%nat).
  { intros text. unfold Demo.model, get.
    match goal with
    | |- context [dict ?table !! text] =>
        assert (Hall : Forall (λ kv, length kv.2 = 2%nat) table)
          by (repeat constructor);
        destruct (dict table !! text) as [v|] eqn:Hv; [| done]
    end.
    apply dict_lookup in Hv. rewrite Forall_forall in Hall.
    apply (Hall _ Hv). }
  rewrite (proj1 (recommend_products_without_posts exact_library
                    [py "Explorer"] Demo.product_catalog Demo.model 5 2
                    ltac:(lia) Hdim)).
  vm_compute. reflexivity.
Defined.

(** C10 fails as stated, in its contrast with the Scorer: [compute_scores]
    has no check for missing text either.  With an empty bio and no posts
    it encodes the empty string and returns a score list. *)
Lemma compute_scores_scorer_accepts_empty_input :
  py_run exact_library [] [] 1
  = Py.Returned
      [ {| score_label := py "Foodie"; embed_score := 1000 # 1000;
           zero_shot_score := 998 # 1000; combined_score := 998 # 1000 |} ].
Proof. vm_compute. reflexivity. Qed.

Lemma length_embed_user_input (bio : pystr) (posts : list pystr)
    (model : SentenceTransformer) (weight_bio : Q) (D : nat) :
  (1 ≤ D)%nat → (∀ text, length (model text) = D) →
  length (embed_user_input bio posts model weight_bio) = D.
Proof.
  intros HD Hdim. unfold embed_user_input, encode_text, model_encode.
  cbn [map zip_with]. rewrite unit_weights. unfold mean_axis0.
  rewrite length_map.
  apply (foldl_vadd_lookup D 0
           (map (λ p, map (Qmult 1) (model p)) posts)
           (map (Qmult weight_bio) (model (strip bio)))).
  - by rewrite length_map.
  - apply Forall_forall. intros r (p & -> & _)%list_elem_of_fmap.
    by rewrite length_map.
  - lia.
Qed.

(** X1.  With the persona vectors that [embed_personalities] gives for a
    catalog that is not empty, an encoder of a fixed dimension of at least
    1, an [np.argsort] that sorts and [top_k >= 1], [compute_scores]
    returns for every bio, posts and weights: the arrays have the shape
    sklearn accepts, every shortlisted index has its persona, and the
    classifier is given at least one label. *)
Theorem compute_scores_on_embedded_catalog_returns
    (L : Py.Library) (bio : pystr) (posts : list pystr)
    (personalities : list Persona)
    (embedding_model : SentenceTransformer) (zero_shot : Pipeline)
    (alpha beta : Q) (top_k : Z) (weight_bio : Q) (D : nat) :
  Py.argsort_sorts L →
  (1 ≤ D)%nat →
  (∀ text, length (embedding_model text) = D) →
  personalities ≠ [] →
  (1 ≤ top_k)%Z →
  ∃ res,
    Py.compute_scores L bio posts personalities
      (embed_personalities personalities embedding_model)
      embedding_model zero_shot alpha beta top_k weight_bio
    = Py.Returned res.
Proof.
  intros Hsort HD Hdim Hne Hk.
  apply py_compute_scores_returns; [done | | | done].
  - apply (well_shaped_uniform D); [done | | |].
    + unfold embed_personalities, encode_text, model_encode.
      by destruct personalities.
    + by apply length_embed_user_input.
    + unfold embed_personalities, encode_text, model_encode.
      apply Forall_fmap, Forall_forall. intros t _. apply Hdim.
  - unfold embed_personalities, encode_text, model_encode.
    by rewrite !length_map.
Qed.

Lemma compute_scores_on_embedded_catalog_returns_witness :
  ∃ res,
    Py.compute_scores exact_library (py "hiker") [py "on the trail"]
      Demo.personalities (embed_personalities Demo.personalities Demo.model)
      Demo.model Demo.zero_shot ALPHA_DEFAULT BETA_DEFAULT 2
      weight_bio_default
    = Py.Returned res.
Proof.
  apply (compute_scores_on_embedded_catalog_returns exact_library
           (py "hiker") [py "on the trail"] Demo.personalities Demo.model
           Demo.zero_shot ALPHA_DEFAULT BETA_DEFAULT 2 weight_bio_default 2).
  - exact exact_library_argsort_sorts.
  - lia.
  - intros text. unfold Demo.model, get.
    match goal with
    | |- context [dict ?table !! text] =>
        assert (Hall : Forall (λ kv, length kv.2 = 2%nat) table)
          by (repeat constructor);
        destruct (dict table !! text) as [v|] eqn:Hv; [| done]
    end.
    apply dict_lookup in Hv. rewrite Forall_forall in Hall.
    apply (Hall _ Hv).
  - discriminate.
  - lia.
Defined.
